(** * anet_inventory: the Atlantic.Net dynamic inventory script

    A shallow embedding of [anet_inventory.py] (Python 2) and the
    properties of its cache policy, refresh policy and inventory builder.

    Layout of the development:
    - [Py]      Python values, dictionaries, exceptions, the JSON library;
    - [World]   the process state: the object's attributes, the cache
                file system, the clock, the API client and the event trace;
    - [Double]  the arithmetic of C doubles, for the age test of the cache;
    - [AtlanticNetInventory] the methods of the class, one definition each;
    - the theorems, grouped by component. *)

From Stdlib Require Import ZArith QArith String Ascii DecimalString.
From Stdlib Require Floats.SpecFloat.
From stdpp Require Import base option list gmap strings sorting.

#[local] Set Warnings "-register-all".
#[local] Open Scope string_scope.

(* ===================================================================== *)
(** ** Python values                                                      *)
(* ===================================================================== *)

Module Py.

(** Exceptions the script can meet.  [SystemExit] is kept apart (see
    [result]) because [sys.exit] carries a status. *)
Inductive exn :=
  | KeyError | TypeError | ValueError | IOError | AttributeError
  | OverflowError
  | ApiError (msg : string).

(** Outcome of a computation: a value, an uncaught exception, or
    [sys.exit(code)]. *)
Inductive result (A : Type) :=
  | Ok (a : A)
  | Raise (e : exn)
  | Exit (code : Z).
Arguments Ok {A} a.
Arguments Raise {A} e.
Arguments Exit {A} code.

#[global] Instance result_ret : MRet result := @Ok.
#[global] Instance result_bind : MBind result := fun A B f r =>
  match r with
  | Ok a => f a
  | Raise e => Raise e
  | Exit c => Exit c
  end.

(** Dictionary keys: the hashable values of the model.  In Python [True]
    and [1] are the same key; booleans used as keys are identified with
    their integer. *)
Inductive key :=
  | KNone
  | KInt (z : Z)
  | KStr (s : string).

#[global] Instance key_eq_dec : EqDecision key.
Proof. solve_decision. Defined.

#[global] Instance key_countable : Countable key.
Proof.
  refine (inj_countable'
    (fun k => match k with
              | KNone => inl ()
              | KInt z => inr (inl z)
              | KStr s => inr (inr s)
              end)
    (fun x => match x with
              | inl _ => KNone
              | inr (inl z) => KInt z
              | inr (inr s) => KStr s
              end) _).
  by intros [].
Defined.

(** Python values: [None], booleans, integers, strings, lists and
    dictionaries.  Python 2 dictionaries have no observable insertion
    order, hence finite maps.  Tuples and floats are not among the values,
    and a string is a [str]: what is proved about values is proved about
    values of these six kinds, and where [str] and [unicode] differ (text
    outside ASCII) the statement says so. *)
Inductive pyval :=
  | PNone
  | PBool (b : bool)
  | PInt (z : Z)
  | PStr (s : string)
  | PList (l : list pyval)
  | PDict (d : gmap key pyval).

Abbreviation dict := (gmap key pyval).

(** [bool(v)] *)
Definition truthy (v : pyval) : bool :=
  match v with
  | PNone => false
  | PBool b => b
  | PInt z => negb (z =? 0)%Z
  | PStr s => negb (String.eqb s "")
  | PList l => negb (Nat.eqb (length l) 0)
  | PDict d => negb (Nat.eqb (size d) 0)
  end.

(** [len(v)]: defined on strings, lists and dictionaries. *)
Definition len (v : pyval) : result nat :=
  match v with
  | PStr s => Ok (String.length s)
  | PList l => Ok (length l)
  | PDict d => Ok (size d)
  | _ => Raise TypeError
  end.

(** [hash(v)]: the key a value is stored under; lists and dictionaries
    are unhashable. *)
Definition to_key (v : pyval) : result key :=
  match v with
  | PNone => Ok KNone
  | PBool b => Ok (KInt (Z.b2z b))
  | PInt z => Ok (KInt z)
  | PStr s => Ok (KStr s)
  | PList _ | PDict _ => Raise TypeError
  end.

(** [v[name]] for a string subscript: only a dictionary accepts it. *)
Definition getitem (v : pyval) (name : string) : result pyval :=
  match v with
  | PDict d =>
      match d !! KStr name with
      | Some x => Ok x
      | None => Raise KeyError
      end
  | _ => Raise TypeError
  end.

(** [v[name] = x] for a string subscript. *)
Definition setitem (v : pyval) (name : string) (x : pyval) : result pyval :=
  match v with
  | PDict d => Ok (PDict (<[KStr name := x]> d))
  | _ => Raise TypeError
  end.

(** [prefix + v]: concatenation to a [str] needs a string. *)
Definition concat (prefix : string) (v : pyval) : result string :=
  match v with
  | PStr s => Ok (prefix ++ s)
  | _ => Raise TypeError
  end.

(** [for x in v]: the elements visited.  A dictionary yields its keys (in
    an order Python 2 leaves unspecified), a string its characters. *)
Definition of_key (k : key) : pyval :=
  match k with
  | KNone => PNone
  | KInt z => PInt z
  | KStr s => PStr s
  end.

Definition chars (s : string) : list pyval :=
  (fun c => PStr (String c EmptyString)) <$> list_ascii_of_string s.

Definition iter (v : pyval) : result (list pyval) :=
  match v with
  | PList l => Ok l
  | PDict d => Ok ((fun kv => of_key kv.1) <$> map_to_list d)
  | PStr s => Ok (chars s)
  | _ => Raise TypeError
  end.

(* --------------------------------------------------------------------- *)
(** *** The [json] library                                                *)
(* --------------------------------------------------------------------- *)

(** [json.dumps] and [json.loads] belong to Python's library, not to the
    script.  They are modelled one level above the text: [dumps] maps a
    value to the JSON document whose text it prints, [loads] maps the
    document a text denotes back to a value.  A JSON object is a sequence
    of members with string names, as in the text.

    The decoder returns [unicode] text, which equals the [str] it was
    written from when that [str] is ASCII; a [str] with other bytes is
    decoded as UTF-8 by the encoder (or refused) and does not come back
    equal.  The model is the library on ASCII text ([ascii_text] below);
    the limits of the interpreter (recursion depth, memory) are left
    out. *)
Inductive json :=
  | JNull
  | JBool (b : bool)
  | JNum (z : Z)
  | JStr (s : string)
  | JArr (l : list json)
  | JObj (members : list (string * json)).

(** Python 2 orders values of different types by type name:
    [None] < numbers < strings; strings compare byte by byte. *)
Definition key_leb (a b : key) : bool :=
  match a, b with
  | KNone, _ => true
  | KInt _, KNone => false
  | KInt x, KInt y => (x <=? y)%Z
  | KInt _, KStr _ => true
  | KStr _, (KNone | KInt _) => false
  | KStr s, KStr t => String.leb s t
  end.

Definition item_le {A} (a b : key * A) : Prop := key_leb a.1 b.1 = true.

#[global] Instance item_le_dec {A} (a b : key * A) : Decision (item_le a b).
Proof. unfold item_le. apply _. Defined.

(** The encoder turns every key into a member name: [None] becomes
    [null], an integer its decimal numeral, a string stays. *)
Definition decimal (z : Z) : string := NilZero.string_of_int (Z.to_int z).

Definition member_name (k : key) : string :=
  match k with
  | KNone => "null"
  | KInt z => decimal z
  | KStr s => s
  end.

(** The members of an object: the items, sorted by key when [sort_keys]
    is set (otherwise in the dictionary's own order). *)
Definition members_of (sort_keys : bool) (items : list (key * json))
  : list (string * json) :=
  (fun kv => (member_name kv.1, kv.2))
    <$> (if sort_keys then merge_sort item_le items else items).

Fixpoint dumps (sort_keys : bool) (v : pyval) : json :=
  match v with
  | PNone => JNull
  | PBool b => JBool b
  | PInt z => JNum z
  | PStr s => JStr s
  | PList l => JArr (dumps sort_keys <$> l)
  | PDict d => JObj (members_of sort_keys (map_to_list (dumps sort_keys <$> d)))
  end.

(** The decoder builds a dictionary by storing the members one after the
    other: of two members with one name the later one stays. *)
Definition store_member (d : dict) (m : string * pyval) : dict :=
  <[KStr m.1 := m.2]> d.

Fixpoint loads (j : json) : pyval :=
  match j with
  | JNull => PNone
  | JBool b => PBool b
  | JNum z => PInt z
  | JStr s => PStr s
  | JArr l => PList (loads <$> l)
  | JObj ms => PDict (foldl store_member ∅ (prod_map id loads <$> ms))
  end.

End Py.
Export Py.

(* ===================================================================== *)
(** ** The process and its surroundings                                   *)
(* ===================================================================== *)

Module World.

(** The four resource kinds of the provider, one per listing method of
    the API client. *)
Inductive kind := Cloudservers | Images | Plans | SshKeys.

#[global] Instance kind_eq_dec : EqDecision kind.
Proof. solve_decision. Defined.

(** What a run does to the outside, in order. *)
Inductive event :=
  | Fetch (k : kind)            (* a listing call of the API client *)
  | ShowServer (id : Z)         (* manager.show_cloudserver(id) *)
  | CacheRead (path : string)   (* open(path, 'r') *)
  | CacheWrite (path : string). (* open(path, 'w') *)

#[global] Instance event_eq_dec : EqDecision event.
Proof. solve_decision. Defined.

(** The cache file holds the text of a JSON document, or bytes
    [json.loads] rejects. *)
Inductive contents :=
  | Garbled
  | Doc (j : json).

(** A regular file: modification time in seconds, read permission,
    contents.  The time is the exact number the float Python reads stands
    for; the rounding of the float addition in the age test is the matter
    of [Double] and [is_cache_valid_double]. *)
Record file := File {
  mtime : Q;
  readable : bool;
  body : contents
}.

(** The API client ([anetpy]'s [AnetManager]): what each method returns
    or raises. *)
Record api := Api {
  all_active_cloudservers : result pyval;
  all_images : result pyval;
  plans : result pyval;
  all_ssh_keys : result pyval;
  show_cloudserver : Z -> result pyval
}.

(** [anet_inventory.ini], section [atlantic_net], already parsed. *)
Record ini := Ini {
  ini_public_key : option string;
  ini_private_key : option string;
  ini_cache_path : option string;
  ini_cache_max_age : option Z;
  ini_group_variables : option pyval
}.

(** The namespace [argparse] returns. *)
Record cli := Cli {
  arg_list : bool;
  arg_host : option string;
  arg_all : bool;
  arg_cloudservers : bool;
  arg_images : bool;
  arg_plans : bool;
  arg_ssh_keys : bool;
  arg_pretty : bool;
  arg_cache_path : option string;
  arg_cache_max_age : option string;
  arg_force_cache : bool;
  arg_refresh_cache : bool;
  arg_env : bool;
  arg_public_key : option string;
  arg_private_key : option string
}.

(** The attributes of the object that configuration sets.  [None] is an
    attribute that was never assigned ([hasattr] is false). *)
Record settings := Settings {
  public_key : option string;
  private_key : option string;
  api_token : option string;
  cache_path : string;
  cache_max_age : Z;
  group_variables : pyval
}.

(** What the methods read but never change once configuration is over. *)
Record env := Env {
  conf : settings;
  args : cli;
  manager : api;
  clock : Q;            (* time() *)
  cache_writable : bool (* whether open(cache_filename, 'w') succeeds *)
}.

(** What the standard output receives. *)
Inductive output :=
  | Line (s : string)
  | Dump (pretty : bool) (j : json).

(** What the run changes: the two data attributes, the dirty flag, the
    file system, and what was emitted. *)
Record state := State {
  data : pyval;
  inventory : pyval;
  cache_refreshed : bool;
  fs : gmap string file;
  trace : list event;
  stdout : list output;
  stderr : list string
}.

Definition set_data (v : pyval) (st : state) : state :=
  State v (inventory st) (cache_refreshed st) (fs st) (trace st) (stdout st) (stderr st).
Definition set_inventory (v : pyval) (st : state) : state :=
  State (data st) v (cache_refreshed st) (fs st) (trace st) (stdout st) (stderr st).
Definition set_cache_refreshed (b : bool) (st : state) : state :=
  State (data st) (inventory st) b (fs st) (trace st) (stdout st) (stderr st).
Definition set_fs (f : gmap string file) (st : state) : state :=
  State (data st) (inventory st) (cache_refreshed st) f (trace st) (stdout st) (stderr st).
Definition log (e : event) (st : state) : state :=
  State (data st) (inventory st) (cache_refreshed st) (fs st) (trace st ++ [e]) (stdout st) (stderr st).
Definition print (o : output) (st : state) : state :=
  State (data st) (inventory st) (cache_refreshed st) (fs st) (trace st) (stdout st ++ [o]) (stderr st).
Definition complain (s : string) (st : state) : state :=
  State (data st) (inventory st) (cache_refreshed st) (fs st) (trace st) (stdout st) (stderr st ++ [s]).

(** State and exceptions: a computation returns its outcome and the state
    it leaves, also when it raises. *)
Definition ST (S A : Type) : Type := S -> result A * S.

#[global] Instance ST_ret {S} : MRet (ST S) := fun A a s => (Ok a, s).
#[global] Instance ST_bind {S} : MBind (ST S) := fun A B f m s =>
  match m s with
  | (Ok a, s') => f a s'
  | (Raise e, s') => (Raise e, s')
  | (Exit c, s') => (Exit c, s')
  end.

Definition lift {S A} (r : result A) : ST S A := fun s => (r, s).
Definition gets {S A} (f : S -> A) : ST S A := fun s => (Ok (f s), s).
Definition modify {S} (f : S -> S) : ST S unit := fun s => (Ok tt, f s).
Definition when {S} (b : bool) (m : ST S unit) : ST S unit :=
  if b then m else mret tt.

(** [for x in l: body x] *)
Fixpoint for_each {S A} (l : list A) (body : A -> ST S unit) : ST S unit :=
  match l with
  | [] => mret tt
  | x :: l' => body x ;; for_each l' body
  end.

Abbreviation M := (ST state).

End World.
Export World.

(* ===================================================================== *)
(** ** C doubles                                                          *)
(* ===================================================================== *)

(** [os.path.getmtime] and [time()] return Python floats, which are C
    doubles (IEEE 754 binary64), and [mod_time + self.cache_max_age] is an
    addition of doubles.  Every finite double is a whole number of units
    of [2^-1074], the smallest positive double; a finite double is kept as
    that whole number.  The sum of two of them is exact in units and is
    then delivered with 53 significant bits, rounded to nearest, ties to
    even. *)
Module Double.

#[local] Open Scope Z_scope.

(** [1.0] in units, and the first magnitude that is too large for a
    double, [2^1024], in units. *)
Definition one : Z := 2 ^ 1074.
Definition huge : Z := 2 ^ 2098.

(** [m * 2^e] in units, for [e] from [-1074] on. *)
Definition dyadic (m e : Z) : Z := m * 2 ^ (e + 1074).

Inductive double :=
  | Finite (n : Z)
  | Infinity (negative : bool)
  | NaN.

(** The number of low bits of [n] that do not fit in 53 significant
    bits.  Below [2^53] units every whole number is a double (the
    subnormal numbers and the first normal ones). *)
Definition excess (n : Z) : Z := Z.log2 (Z.abs n) - 52.

(** The multiple of [2^k] nearest to [n]; of two that are equally near,
    the one with the even quotient. *)
Definition nearest_even (n k : Z) : Z :=
  let q := n / 2 ^ k in
  let r := n mod 2 ^ k in
  let half := 2 ^ (k - 1) in
  if r <? half then q * 2 ^ k
  else if half <? r then (q + 1) * 2 ^ k
  else if Z.even q then q * 2 ^ k
  else (q + 1) * 2 ^ k.

Definition nearest (n : Z) : Z :=
  if 0 <? excess n then nearest_even n (excess n) else n.

(** The double an exact result of [n] units is delivered as: the nearest
    one, or an infinity when that is [2^1024] or more in magnitude. *)
Definition round (n : Z) : double :=
  let r := nearest n in
  if huge <=? Z.abs r then Infinity (r <? 0) else Finite r.

(** Whether [n] has at most 53 significant bits, and whether [n] units
    is a finite double. *)
Definition fits (n : Z) : bool := n mod 2 ^ Z.max 0 (excess n) =? 0.

Definition is_double (n : Z) : bool := (Z.abs n <? huge) && fits n.

(** [x + y] *)
Definition add (x y : double) : double :=
  match x, y with
  | Finite a, Finite b => round (a + b)
  | Infinity s, Infinity s' => if Bool.eqb s s' then Infinity s else NaN
  | Infinity s, Finite _ | Finite _, Infinity s => Infinity s
  | _, _ => NaN
  end.

(** [x > y]: exact on finite doubles, false when either side is not a
    number. *)
Definition gt (x y : double) : bool :=
  match x, y with
  | Finite a, Finite b => b <? a
  | Infinity false, (Finite _ | Infinity true) => true
  | Finite _, Infinity true => true
  | _, _ => false
  end.

(** The integer operand of [float + int] is converted first: an [int] is
    cast, a [long] is rounded to nearest, and a [long] whose double would
    be [2^1024] or more raises [OverflowError]. *)
Definition of_int (i : Z) : result double :=
  match round (i * one) with
  | Finite n => Ok (Finite n)
  | _ => Raise OverflowError
  end.

(** The number a finite double of [n] units stands for. *)
Definition value (n : Z) : Q := inject_Z n / inject_Z one.

(** The same double in the standard library's specification of IEEE 754
    arithmetic, at the parameters of binary64. *)
Definition to_spec (d : double) : SpecFloat.spec_float :=
  match d with
  | Finite n => SpecFloat.binary_normalize 53 1024 n (-1074) false
  | Infinity s => SpecFloat.S754_infinity s
  | NaN => SpecFloat.S754_nan
  end.

End Double.

(* ===================================================================== *)
(** ** class AtlanticNetInventory                                         *)
(* ===================================================================== *)

Module AtlanticNetInventory.

(* --------------------------------------------------------------------- *)
(** *** Utilities                                                         *)
(* --------------------------------------------------------------------- *)

Definition between (lo hi c : ascii) : bool :=
  Ascii.leb lo c && Ascii.leb c hi.

(** The characters the class [[^A-Za-z0-9\-\.]] does not match. *)
Definition safe_char (c : ascii) : bool :=
  between "A" "Z" c || between "a" "z" c || between "0" "9" c
  || Ascii.eqb c "-" || Ascii.eqb c ".".

(** [re.sub("[^A-Za-z0-9\-\.]", "_", word)] *)
Fixpoint to_safe (word : string) : string :=
  match word with
  | EmptyString => EmptyString
  | String c w => String (if safe_char c then c else "_"%char) (to_safe w)
  end.

(** [self.to_safe(v)] on a value: [re.sub] needs a string. *)
Definition to_safe_val (v : pyval) : result string :=
  match v with
  | PStr s => Ok (to_safe s)
  | _ => Raise TypeError
  end.

(* --------------------------------------------------------------------- *)
(** *** Script configuration                                              *)
(* --------------------------------------------------------------------- *)

(** The defaults [__init__] defines before reading anything. *)
Definition defaults : settings :=
  Settings None None None "." 0 (PDict ∅).

Definition read_settings (config : ini) (s : settings) : settings :=
  let s := match ini_public_key config with
           | Some v => Settings (Some v) (private_key s) (api_token s)
                         (cache_path s) (cache_max_age s) (group_variables s)
           | None => s
           end in
  let s := match ini_private_key config with
           | Some v => Settings (public_key s) (Some v) (api_token s)
                         (cache_path s) (cache_max_age s) (group_variables s)
           | None => s
           end in
  let s := match ini_cache_path config with
           | Some v => Settings (public_key s) (private_key s) (api_token s)
                         v (cache_max_age s) (group_variables s)
           | None => s
           end in
  let s := match ini_cache_max_age config with
           | Some v => Settings (public_key s) (private_key s) (api_token s)
                         (cache_path s) v (group_variables s)
           | None => s
           end in
  match ini_group_variables config with
  | Some v => Settings (public_key s) (private_key s) (api_token s)
                (cache_path s) (cache_max_age s) v
  | None => s
  end.

(** [if os.getenv(name):] holds for a variable that is set and not empty. *)
Definition getenv (environ : gmap string string) (name : string)
  : option string :=
  match environ !! name with
  | Some v => if String.eqb v "" then None else Some v
  | None => None
  end.

(** Both variables are assigned to [self.api_token]. *)
Definition read_environment (environ : gmap string string) (s : settings)
  : settings :=
  let s := match getenv environ "ANET_PUBLIC_KEY" with
           | Some v => Settings (public_key s) (private_key s) (Some v)
                         (cache_path s) (cache_max_age s) (group_variables s)
           | None => s
           end in
  match getenv environ "ANET_PRIVATE_KEY" with
  | Some v => Settings (public_key s) (private_key s) (Some v)
                (cache_path s) (cache_max_age s) (group_variables s)
  | None => s
  end.

(** [if self.args.x:] for an optional string argument. *)
Definition given (a : option string) : option string :=
  match a with
  | Some v => if String.eqb v "" then None else Some v
  | None => None
  end.

(** [read_cli_args]: the parsed namespace is [argv]; only the two keys are
    copied to the object, and [--list] becomes the default command. *)
Definition read_cli_args (argv : cli) (s : settings) : settings * cli :=
  let s := match given (arg_public_key argv) with
           | Some v => Settings (Some v) (private_key s) (api_token s)
                         (cache_path s) (cache_max_age s) (group_variables s)
           | None => s
           end in
  let s := match given (arg_private_key argv) with
           | Some v => Settings (public_key s) (Some v) (api_token s)
                         (cache_path s) (cache_max_age s) (group_variables s)
           | None => s
           end in
  let argv :=
    if negb (arg_cloudservers argv) && negb (arg_images argv)
       && negb (arg_plans argv) && negb (arg_ssh_keys argv)
       && negb (arg_all argv) && negb (bool_decide (is_Some (given (arg_host argv))))
    then Cli true (arg_host argv) (arg_all argv) (arg_cloudservers argv)
           (arg_images argv) (arg_plans argv) (arg_ssh_keys argv)
           (arg_pretty argv) (arg_cache_path argv) (arg_cache_max_age argv)
           (arg_force_cache argv) (arg_refresh_cache argv) (arg_env argv)
           (arg_public_key argv) (arg_private_key argv)
    else argv in
  (s, argv).

(** The three sources in the order [__init__] reads them. *)
Definition configure (config : ini) (environ : gmap string string)
    (argv : cli) : settings * cli :=
  read_cli_args argv (read_environment environ (read_settings config defaults)).

(* --------------------------------------------------------------------- *)
(** *** Cache management                                                  *)
(* --------------------------------------------------------------------- *)

Definition cache_filename (s : settings) : string :=
  cache_path s ++ "/ansible-atlantic_net.cache".

(** [a > b] on times *)
Definition Qgtb (a b : Q) : bool :=
  match (b ?= a)%Q with
  | Lt => true
  | _ => false
  end.

(** [is_cache_valid] on the process state, with the two times as the
    exact numbers the floats stand for and an exact sum.
    [is_cache_valid_double] below is the same method with the arithmetic
    of the interpreter; [is_cache_valid_exact] says where the two
    agree. *)
Definition is_cache_valid (e : env) (st : state) : bool :=
  match fs st !! cache_filename (conf e) with
  | Some f =>
      let mod_time := mtime f in
      let current_time := clock e in
      if Qgtb (mod_time + inject_Z (cache_max_age (conf e))) current_time
      then true
      else false
  | None => false
  end.

(** [is_cache_valid] on the numbers the interpreter computes with.
    [file] is the modification time of the cache file when there is one
    ([os.path.isfile], [os.path.getmtime]) and [now] is [time()], both
    finite doubles in units of [2^-1074]; [cache_max_age] is a Python
    integer.  The integer is converted to a double, the sum is rounded,
    the comparison is exact. *)
Definition is_cache_valid_double (file : option Z) (cache_max_age : Z)
    (now : Z) : result bool :=
  match file with
  | Some t =>
      let mod_time := Double.Finite t in
      let current_time := Double.Finite now in
      age ← Double.of_int cache_max_age ;
      if Double.gt (Double.add mod_time age) current_time
      then Ok true
      else Ok false
  | None => Ok false
  end.

Definition empty_snapshot : pyval :=
  PDict (<[KStr "data" := PDict ∅]> (<[KStr "inventory" := PDict ∅]> ∅)).

(** The body of the [try]: open, read, close, [json.loads]. *)
Definition read_cache (e : env) (st : state) : result pyval :=
  match fs st !! cache_filename (conf e) with
  | Some f =>
      if readable f then
        match body f with
        | Doc j => Ok (loads j)
        | Garbled => Raise ValueError
        end
      else Raise IOError
  | None => Raise IOError
  end.

(** [try: ... except IOError: data = {'data': {}, 'inventory': {}}] *)
Definition except_IOError (r : result pyval) (handler : pyval)
  : result pyval :=
  match r with
  | Raise IOError => Ok handler
  | _ => r
  end.

Definition load_from_cache (e : env) : M unit :=
  modify (log (CacheRead (cache_filename (conf e)))) ;;
  r ← gets (read_cache e) ;
  cache ← lift (except_IOError r empty_snapshot) ;
  d ← lift (getitem cache "data") ;
  modify (set_data d) ;;
  i ← lift (getitem cache "inventory") ;
  modify (set_inventory i).

(** The document [write_to_cache] serialises. *)
Definition snapshot (st : state) : pyval :=
  PDict (<[KStr "data" := data st]> (<[KStr "inventory" := inventory st]> ∅)).

(** Opening for writing keeps the permissions of an existing file; the
    time of the write is the time of the run. *)
Definition written (e : env) (old : option file) (j : json) : file :=
  File (clock e)
       (match old with Some f => readable f | None => true end)
       (Doc j).

Definition write_to_cache (e : env) : M unit :=
  json_data ← gets (fun st => dumps true (snapshot st)) ;
  modify (log (CacheWrite (cache_filename (conf e)))) ;;
  if cache_writable e then
    modify (fun st =>
      set_fs (<[cache_filename (conf e) :=
                  written e (fs st !! cache_filename (conf e)) json_data]>
                (fs st)) st)
  else lift (Raise IOError).

(* --------------------------------------------------------------------- *)
(** *** Data management                                                   *)
(* --------------------------------------------------------------------- *)

(** [resource == name or resource is None] *)
Definition wants (resource : option string) (name : string) : bool :=
  match resource with
  | Some r => String.eqb r name
  | None => true
  end.

(** [self.data[name] = <call>; self.cache_refreshed = True]: the call is
    made first, its result stored under [name], then the flag is set. *)
Definition fetch (k : kind) (name : string) (call : result pyval) : M unit :=
  modify (log (Fetch k)) ;;
  v ← lift call ;
  d ← gets data ;
  d' ← lift (setitem d name v) ;
  modify (set_data d') ;;
  modify (set_cache_refreshed true).

Definition load_from_atlantic_net (e : env) (resource : option string)
  : M unit :=
  if arg_force_cache (args e) then mret tt
  else
    valid ← gets (is_cache_valid e) ;
    if valid && negb (wants resource "cloudservers") then mret tt
    else
      let resource := if arg_refresh_cache (args e) then None else resource in
      when (wants resource "cloudservers")
        (fetch Cloudservers "cloudservers" (all_active_cloudservers (manager e))) ;;
      when (wants resource "images")
        (fetch Images "images" (all_images (manager e))) ;;
      when (wants resource "plans")
        (fetch Plans "plans" (plans (manager e))) ;;
      when (wants resource "ssh_keys")
        (fetch SshKeys "ssh_keys" (all_ssh_keys (manager e))).

(** The loop of [build_inventory] works on the dictionary the method has
    just created; its statements thread that dictionary. *)
Abbreviation Inv := (ST dict).

Definition new_group : pyval :=
  PDict (<[KStr "hosts" := PList []]> (<[KStr "vars" := PDict ∅]> ∅)).

(** [self.inventory[k] = x] *)
Definition store (k : pyval) (x : pyval) : Inv unit :=
  k' ← lift (to_key k) ;
  modify (<[k' := x]>).

(** [self.inventory[group]['hosts'].append(dest)] *)
Definition append_host (group : string) (dest : pyval) : Inv unit :=
  fun inv =>
    match inv !! KStr group with
    | None => (Raise KeyError, inv)
    | Some g =>
        match getitem g "hosts" with
        | Ok (PList hosts) =>
            match setitem g "hosts" (PList (hosts ++ [dest])) with
            | Ok g' => (Ok tt, <[KStr group := g']> inv)
            | Raise x => (Raise x, inv)
            | Exit c => (Exit c, inv)
            end
        | Ok _ => (Raise AttributeError, inv)
        | Raise x => (Raise x, inv)
        | Exit c => (Exit c, inv)
        end
    end.

(** [if group not in self.inventory: self.inventory[group] = {...}]
    followed by the append. *)
Definition add_to_group (group : string) (dest : pyval) : Inv unit :=
  present ← gets (fun inv : dict => bool_decide (is_Some (inv !! KStr group))) ;
  when (negb present) (modify (<[KStr group := new_group]>)) ;;
  append_host group dest.

(** One turn of the loop over the cloudservers. *)
Definition add_cloudserver (cloudserver : pyval) : Inv unit :=
  dest ← lift (getitem cloudserver "vm_ip_address") ;
  append_host "all" dest ;;
  id ← lift (getitem cloudserver "id") ;
  store id (PList [dest]) ;;
  name ← lift (getitem cloudserver "name") ;
  store name (PList [dest]) ;;
  (* groups that are always present: the list is built, then walked *)
  g1 ← lift (v ← getitem cloudserver "vm_image" ;
             s ← to_safe_val v ; mret ("image_" ++ s)) ;
  g2 ← lift (v ← getitem cloudserver "vm_plan_name" ; concat "plan_" v) ;
  g3 ← lift (v ← getitem cloudserver "vm_image_display_name" ;
             s ← to_safe_val v ; mret ("distro_" ++ s)) ;
  g4 ← lift (v ← getitem cloudserver "vm_status" ; concat "status_" v) ;
  for_each [g1; g2; g3; g4] (fun group => add_to_group group dest) ;;
  (* groups that are not always present *)
  i1 ← lift (getitem cloudserver "vm_image") ;
  i2 ← lift (getitem cloudserver "vm_image_display_name") ;
  for_each [i1; i2] (fun group =>
    when (truthy group)
      (s ← lift (to_safe_val group) ;
       add_to_group ("image_" ++ s) dest)).

Definition initial_inventory (e : env) : dict :=
  <[KStr "all" :=
      PDict (<[KStr "hosts" := PList []]>
             (<[KStr "vars" := group_variables (conf e)]> ∅))]>
  (<[KStr "_meta" := PDict (<[KStr "hostvars" := PDict ∅]> ∅)]> ∅).

(** The loop as a computation on the inventory under construction. *)
Definition fill_inventory (d : pyval) : Inv unit :=
  cloudservers ← lift (getitem d "cloudservers") ;
  l ← lift (iter cloudservers) ;
  for_each l add_cloudserver.

Definition build_inventory (e : env) : M unit :=
  fun st =>
    let '(r, inv) := fill_inventory (data st) (initial_inventory e) in
    (r, set_inventory (PDict inv) st).

(** [int(s)] for a command-line string: blanks around, an optional sign,
    decimal digits. *)
Definition is_space (c : ascii) : bool :=
  Ascii.eqb c " " || between "009" "013" c.

Fixpoint lstrip (s : string) : string :=
  match s with
  | String c s' => if is_space c then lstrip s' else s
  | EmptyString => EmptyString
  end.

Definition strip (s : string) : string :=
  String.rev (lstrip (String.rev (lstrip s))).

Definition digit (c : ascii) : option Z :=
  if between "0" "9" c then Some (Z.of_nat (nat_of_ascii c) - 48)%Z else None.

Fixpoint digits (acc : Z) (s : string) : option Z :=
  match s with
  | EmptyString => Some acc
  | String c s' =>
      match digit c with
      | Some d => digits (10 * acc + d)%Z s'
      | None => None
      end
  end.

Definition unsigned (s : string) : option Z :=
  match s with
  | EmptyString => None
  | _ => digits 0 s
  end.

Definition int (s : string) : result Z :=
  let parsed :=
    match strip s with
    | String "-" r => Z.opp <$> unsigned r
    | String "+" r => unsigned r
    | r => unsigned r
    end in
  match parsed with
  | Some z => Ok z
  | None => Raise ValueError
  end.

(** [info['anet_'+k] = v] for every item of the cloudserver. *)
Definition prefix_item (k : key) (v : pyval) (acc : result dict)
  : result dict :=
  info ← acc ;
  name ← concat "anet_" (of_key k) ;
  mret (<[KStr name := v]> info).

Definition load_cloudserver_variables_for_host (e : env) : M pyval :=
  host ← lift (int (default "" (arg_host (args e)))) ;
  modify (log (ShowServer host)) ;;
  cloudserver ← lift (show_cloudserver (manager e) host) ;
  match cloudserver with
  | PDict d =>
      info ← lift (map_fold prefix_item (Ok ∅) d) ;
      mret (PDict (<[KStr "cloudserver" := PDict info]> ∅))
  | _ => lift (Raise AttributeError)
  end.

(* --------------------------------------------------------------------- *)
(** *** Main execution path                                               *)
(* --------------------------------------------------------------------- *)

Definition missing_credentials : string :=
  "Could not find values for Atlantic.Net public_key and private_key.".

Definition cache_empty_forced : string :=
  "Cache is empty and --force-cache was specified".

(** [if self.is_cache_valid:] names the bound method and does not call
    it; a method object is true. *)
Definition bound_method {A} (method : A) : bool := true.

(** "Manage cache": the file name, the dirty flag, the first load. *)
Definition manage_cache (e : env) : M unit :=
  modify (set_cache_refreshed false) ;;
  when (bound_method (is_cache_valid e))
    (load_from_cache e ;;
     d ← gets data ;
     n ← lift (len d) ;
     when (Nat.eqb n 0)
       (when (arg_force_cache (args e))
          (modify (complain cache_empty_forced) ;; lift (Exit (-1))))).

(** [{name: self.data[name]}] *)
Definition view (name : string) : M pyval :=
  d ← gets data ;
  v ← lift (getitem d name) ;
  mret (PDict (<[KStr name := v]> ∅)).

(** "Pick the json_data to print based on the CLI command". *)
Definition pick (e : env) : M pyval :=
  if arg_cloudservers (args e) then
    load_from_atlantic_net e (Some "cloudservers") ;; view "cloudservers"
  else if arg_images (args e) then
    load_from_atlantic_net e (Some "images") ;; view "images"
  else if arg_plans (args e) then
    load_from_atlantic_net e (Some "plans") ;; view "plans"
  else if arg_ssh_keys (args e) then
    load_from_atlantic_net e (Some "ssh_keys") ;; view "ssh_keys"
  else if arg_all (args e) then
    load_from_atlantic_net e None ;; gets data
  else if bool_decide (is_Some (given (arg_host (args e)))) then
    load_cloudserver_variables_for_host e
  else
    load_from_atlantic_net e (Some "cloudservers") ;;
    build_inventory e ;;
    gets inventory.

(** The end of the run: save when something was fetched, then print.
    [--pretty] prints with sorted keys. *)
Definition finish (e : env) (json_data : pyval) : M unit :=
  refreshed ← gets cache_refreshed ;
  when refreshed (write_to_cache e) ;;
  modify (print (Dump (arg_pretty (args e))
                      (dumps (arg_pretty (args e)) json_data))).

(** What is outside the process when it starts. *)
Record invocation := Invocation {
  config : ini;
  environ : gmap string string;
  argv : cli;
  service : api;
  started : Q;
  may_write : bool
}.

Definition __init__ (i : invocation) : M unit :=
  modify (set_data (PDict ∅)) ;;
  modify (set_inventory (PDict ∅)) ;;
  let '(s, a) := configure (config i) (environ i) (argv i) in
  match public_key s, private_key s with
  | Some pub, Some priv =>
      if arg_env a then
        modify (print (Line ("ANET_PUBLIC_KEY=" ++ pub))) ;;
        modify (print (Line ("ANET_PRIVATE_KEY=" ++ priv))) ;;
        lift (Exit 0)
      else
        let e := Env s a (service i) (started i) (may_write i) in
        manage_cache e ;;
        json_data ← pick e ;
        finish e json_data
  | _, _ =>
      modify (complain missing_credentials) ;;
      lift (Exit (-1))
  end.

End AtlanticNetInventory.
Export AtlanticNetInventory.

(** A process starts with nothing emitted and the files it finds. *)
Definition boot (files : gmap string file) : state :=
  State PNone PNone false files [] [] [].

(* ===================================================================== *)
(** ** Measures, predicates and sample inputs used by the theorems         *)
(* ===================================================================== *)

(** The number of constructors of a value: the measure of the induction
    on values. *)
Fixpoint pysize (v : pyval) : nat :=
  match v with
  | PList l => S (foldr (fun x n => pysize x + n) 0 l)
  | PDict d => S (map_fold (fun _ x n => pysize x + n) 0 d)
  | _ => 1
  end.

(** Values in which every dictionary, at every depth, is keyed by strings:
    the values a JSON text can denote. *)
Inductive string_keys : pyval -> Prop :=
  | sk_none : string_keys PNone
  | sk_bool b : string_keys (PBool b)
  | sk_int z : string_keys (PInt z)
  | sk_str s : string_keys (PStr s)
  | sk_list l : Forall string_keys l -> string_keys (PList l)
  | sk_dict d :
      map_Forall (fun k _ => exists s, k = KStr s) d ->
      map_Forall (fun _ x => string_keys x) d ->
      string_keys (PDict d).

Definition is_fetch (ev : event) : bool :=
  match ev with
  | Fetch _ => true
  | _ => false
  end.

Definition is_write (ev : event) : bool :=
  match ev with
  | CacheWrite _ => true
  | _ => false
  end.

(** Whether a listing call of the API client occurs in a trace, and
    whether the cache file was opened for writing. *)
Definition fetched (t : list event) : bool := existsb is_fetch t.
Definition saved (t : list event) : bool := existsb is_write t.

(** The four listing calls, in the order of the source. *)
Definition full_refresh : list event :=
  [Fetch Cloudservers; Fetch Images; Fetch Plans; Fetch SshKeys].

Module Sample.

Definition no_args : cli :=
  Cli false None false false false false false false None None
      false false false None None.

Definition address : pyval := PStr "10.0.0.1".

(** The cloudserver of the end-to-end scenario. *)
Definition web1 : pyval :=
  PDict (<[KStr "id" := PInt 1]>
        (<[KStr "name" := PStr "web1"]>
        (<[KStr "vm_ip_address" := address]>
        (<[KStr "vm_image" := PStr "img-1"]>
        (<[KStr "vm_image_display_name" := PStr "Ubuntu 20.04"]>
        (<[KStr "vm_plan_name" := PStr "small"]>
        (<[KStr "vm_status" := PStr "active"]> ∅))))))).

Definition group (hosts : list pyval) : pyval :=
  PDict (<[KStr "hosts" := PList hosts]> (<[KStr "vars" := PDict ∅]> ∅)).

Definition meta : pyval := PDict (<[KStr "hostvars" := PDict ∅]> ∅).

(** The inventory the scenario is said to produce. *)
Definition claimed_inventory : dict :=
  <[KStr "all" := group [address]]>
  (<[KStr "_meta" := meta]>
  (<[KInt 1 := PList [address]]>
  (<[KStr "web1" := PList [address]]>
  (<[KStr "image_img-1" := group [address]]>
  (<[KStr "plan_small" := group [address]]>
  (<[KStr "distro_Ubuntu_20_04" := group [address]]>
  (<[KStr "status_active" := group [address]]> ∅))))))).

(** The inventory [build_inventory] produces for it. *)
Definition built_inventory : dict :=
  <[KStr "all" := group [address]]>
  (<[KStr "_meta" := meta]>
  (<[KInt 1 := PList [address]]>
  (<[KStr "web1" := PList [address]]>
  (<[KStr "image_img-1" := group [address; address]]>
  (<[KStr "image_Ubuntu_20.04" := group [address]]>
  (<[KStr "plan_small" := group [address]]>
  (<[KStr "distro_Ubuntu_20.04" := group [address]]>
  (<[KStr "status_active" := group [address]]> ∅)))))))).

Definition provider : api :=
  Api (Ok (PList [web1])) (Ok (PList [PStr "image"]))
      (Ok (PList [PStr "plan"])) (Ok (PList [PStr "key"]))
      (fun _ => Ok web1).

Definition keys_set (max_age : Z) : settings :=
  Settings (Some "PUB") (Some "PRIV") None "." max_age (PDict ∅).

Definition cache_file : string := "./ansible-atlantic_net.cache".

(** A snapshot document written by an earlier run. *)
Definition old_data : pyval :=
  PDict (<[KStr "images" := PList [PStr "old image"]]> ∅).

Definition old_snapshot : json :=
  JObj [("data", JObj [("images", JArr [JStr "old image"])]);
        ("inventory", JObj [])].

(** A file system holding that snapshot, written at time 100. *)
Definition cached : gmap string file :=
  <[cache_file := File 100 true (Doc old_snapshot)]> ∅.

(** [--images --refresh-cache], a max age of 60 seconds, run at time 120:
    the cache is valid. *)
Definition refresh_images : env :=
  Env (keys_set 60)
      (Cli false None false false true false false false None None
           false true false None None)
      provider 120 true.


(** [--force-cache --all] *)
Definition forced : env :=
  Env (keys_set 60)
      (Cli false None true false false false false false None None
           true false false None None)
      provider 120 true.

(** The default command, [--list]. *)
Definition listing : env :=
  Env (keys_set 0)
      (Cli true None false false false false false false None None
           false false false None None)
      provider 500 true.

Definition loaded : state :=
  State old_data (PDict ∅) false cached [] [] [].

(** A state holding the scenario's cloudserver list. *)
Definition one_server : state :=
  State (PDict (<[KStr "cloudservers" := PList [web1]]> ∅)) (PDict ∅)
        false ∅ [] [] [].

(** The state after the scenario's inventory was built. *)
Definition with_inventory : state :=
  State (PDict (<[KStr "cloudservers" := PList [web1]]> ∅))
        (PDict built_inventory) true ∅ [] [] [].

(** Credentials given through the environment only. *)
Definition from_environment : invocation :=
  Invocation (Ini None None None None None)
             (<["ANET_PUBLIC_KEY" := "PUB"]> (<["ANET_PRIVATE_KEY" := "PRIV"]> ∅))
             no_args provider 500 true.

(** Credentials in the INI file, default command, stale cache on disk. *)
Definition from_ini : invocation :=
  Invocation (Ini (Some "PUB") (Some "PRIV") None (Some 60%Z) None)
             ∅ no_args provider 500 true.

End Sample.

(* --------------------------------------------------------------------- *)
(** *** States and footprints the theorems speak of                       *)
(* --------------------------------------------------------------------- *)

(** The state [load_from_cache] leaves when it falls back to the empty
    snapshot. *)
Definition installs_empty (e : env) (st : state) : state :=
  set_inventory (PDict ∅)
    (set_data (PDict ∅) (log (CacheRead (cache_filename (conf e))) st)).


(** The state a full refresh leaves. *)
Definition refreshed (cs im pl sk : pyval) (d : dict) (st : state) : state :=
  State (PDict (<[KStr "ssh_keys" := sk]> (<[KStr "plans" := pl]>
                 (<[KStr "images" := im]> (<[KStr "cloudservers" := cs]> d)))))
        (inventory st) true (fs st) ((trace st ++ full_refresh)%list)
        (stdout st) (stderr st).

Definition is_ok {A} (r : result A) : bool :=
  match r with
  | Ok _ => true
  | _ => false
  end.

(** A step that makes no listing call, does not open the cache file for
    writing and leaves the files and the dirty flag as they were. *)
Definition silent {A} (st : state) (out : result A * state) : Prop :=
  fs out.2 = fs st
  /\ cache_refreshed out.2 = cache_refreshed st
  /\ exists evs : list event, trace out.2 = (trace st ++ evs)%list
                 /\ fetched evs = false /\ saved evs = false.

(** A step that does not touch the files and keeps the dirty flag in
    line with its listing calls: unchanged without a call, set when a call
    was made and the step returned. *)
Definition tracks {A} (st : state) (out : result A * state) : Prop :=
  fs out.2 = fs st
  /\ exists evs : list event, trace out.2 = (trace st ++ evs)%list
       /\ saved evs = false
       /\ (fetched evs = false -> cache_refreshed out.2 = cache_refreshed st)
       /\ (fetched evs = true -> is_ok out.1 = true ->
           cache_refreshed out.2 = true).

Definition Silent {A} (m : M A) : Prop := forall st, silent st (m st).
Definition Tracks {A} (m : M A) : Prop := forall st, tracks st (m st).

(* --------------------------------------------------------------------- *)
(** *** The remaining utility                                             *)
(* --------------------------------------------------------------------- *)

(** [push(my_dict, key, element)]: append to the list under [key], or
    start one.  The script defines it and never calls it. *)
Definition push (key element : pyval) : Inv unit :=
  k ← lift (to_key key) ;
  present ← gets (fun my_dict : dict => my_dict !! k) ;
  match present with
  | Some (PList l) => modify (<[k := PList (l ++ [element])%list]>)
  | Some _ => lift (Raise AttributeError)
  | None => modify (<[k := PList [element]]>)
  end.

(* --------------------------------------------------------------------- *)
(** *** Names the further theorems speak of                               *)
(* --------------------------------------------------------------------- *)



(** The state before the cache management of a run on [files]. *)
Definition fresh (files : gmap string file) : state :=
  set_inventory (PDict ∅) (set_data (PDict ∅) (boot files)).

(* --------------------------------------------------------------------- *)
(** *** Cloudserver records, as the builder reads them                    *)
(* --------------------------------------------------------------------- *)

(** The seven fields [build_inventory] reads, for a record in which the
    id is an integer and the others are strings. *)
Record server := Server {
  sv_id : Z;
  sv_name : string;
  sv_address : string;
  sv_image : string;
  sv_display : string;
  sv_plan : string;
  sv_status : string
}.

(** [c] is a provider record that holds these seven fields (and whatever
    else the provider sends). *)
Definition describes (s : server) (c : pyval) : Prop :=
  exists d, c = PDict d
    /\ d !! KStr "id" = Some (PInt (sv_id s))
    /\ d !! KStr "name" = Some (PStr (sv_name s))
    /\ d !! KStr "vm_ip_address" = Some (PStr (sv_address s))
    /\ d !! KStr "vm_image" = Some (PStr (sv_image s))
    /\ d !! KStr "vm_image_display_name" = Some (PStr (sv_display s))
    /\ d !! KStr "vm_plan_name" = Some (PStr (sv_plan s))
    /\ d !! KStr "vm_status" = Some (PStr (sv_status s)).

(** The groups one turn of the loop appends the address to, in the order
    of the appends: [all], the four groups that are always present, then
    the image groups of the two fields that are not empty. *)
Definition groups_of (s : server) : list string :=
  ["all";
   "image_" ++ to_safe (sv_image s);
   "plan_" ++ sv_plan s;
   "distro_" ++ to_safe (sv_display s);
   "status_" ++ sv_status s]%string
  ++ (if String.eqb (sv_image s) "" then []
      else ["image_" ++ to_safe (sv_image s)]%string)
  ++ (if String.eqb (sv_display s) "" then []
      else ["image_" ++ to_safe (sv_display s)]%string).

(** The names the builder appends under: [all] and everything under the
    four prefixes. *)
Definition group_name (g : string) : bool :=
  String.eqb g "all"
  || String.prefix "image_" g || String.prefix "plan_" g
  || String.prefix "distro_" g || String.prefix "status_" g.

(** [{'hosts': hosts, 'vars': vars}] *)
Definition host_group (hosts : list pyval) (vars : pyval) : pyval :=
  PDict (<[KStr "hosts" := PList hosts]> (<[KStr "vars" := vars]> ∅)).

(** The addresses group [g] receives from a list of servers: each
    server's address once per occurrence of [g] among its groups. *)
Definition joins (g : string) (s : server) : list pyval :=
  (fun _ => PStr (sv_address s)) <$> filter (fun x => x = g) (groups_of s).

Definition members (g : string) (servers : list server) : list pyval :=
  servers ≫= joins g.

(** What a group key holds after it received [hosts]: a group that exists
    from the start keeps its [vars]; a group created on demand is absent
    until the first address comes. *)
Definition slot (vars : option pyval) (hosts : list pyval) : option pyval :=
  match vars, hosts with
  | Some v, _ => Some (host_group hosts v)
  | None, [] => None
  | None, _ => Some (host_group hosts (PDict ∅))
  end.

(** The inventory after one turn of the loop, when every append finds a
    group or no entry: the address joins [all], the two shortcuts are
    written, the address joins the derived groups. *)
Definition joined (o : option pyval) (dest : pyval) : pyval :=
  match o with
  | Some (PDict gd) =>
      match gd !! KStr "hosts" with
      | Some (PList h) => PDict (<[KStr "hosts" := PList (h ++ [dest])%list]> gd)
      | _ => PDict gd
      end
  | Some v => v
  | None => host_group [dest] (PDict ∅)
  end.

Definition bump (dest : pyval) (inv : dict) (g : string) : dict :=
  <[KStr g := joined (inv !! KStr g) dest]> inv.

Definition turn (inv : dict) (s : server) : dict :=
  let dest := PStr (sv_address s) in
  foldl (bump dest)
    (<[KStr (sv_name s) := PList [dest]]>
       (<[KInt (sv_id s) := PList [dest]]> (bump dest inv "all")))
    (tail (groups_of s)).

(** An entry the appends accept: absent, or a dictionary with a list
    under [hosts]. *)
Definition group_like (o : option pyval) : Prop :=
  o = None
  \/ exists gd h, o = Some (PDict gd) /\ gd !! KStr "hosts" = Some (PList h).

(** An inventory under construction in which [all] is a group and no
    group name is taken by a shortcut. *)
Definition tidy (inv : dict) : Prop :=
  (exists gd h, inv !! KStr "all" = Some (PDict gd)
                /\ gd !! KStr "hosts" = Some (PList h))
  /\ forall g, group_name g = true -> group_like (inv !! KStr g).

(** A server writes the shortcut [k] when [k] is its id or its name. *)
Definition writes (k : key) (s : server) : Prop :=
  k = KInt (sv_id s) \/ k = KStr (sv_name s).

#[global] Instance writes_dec (k : key) (s : server) : Decision (writes k s).
Proof. unfold writes. apply _. Defined.

(** The cloudservers of a ResourceSet are the records [l]. *)
Definition lists (st : state) (l : list pyval) : Prop :=
  exists d, data st = PDict d /\ d !! KStr "cloudservers" = Some (PList l).

(** The scenario's cloudserver as a record, and a second server on the
    same plan. *)
Definition web1_fields : server :=
  Server 1 "web1" "10.0.0.1" "img-1" "Ubuntu 20.04" "small" "active".

Definition web2_fields : server :=
  Server 2 "web2" "10.0.0.2" "" "" "small" "stopped".

Definition web2 : pyval :=
  PDict (<[KStr "id" := PInt 2]>
        (<[KStr "name" := PStr "web2"]>
        (<[KStr "vm_ip_address" := PStr "10.0.0.2"]>
        (<[KStr "vm_image" := PStr ""]>
        (<[KStr "vm_image_display_name" := PStr ""]>
        (<[KStr "vm_plan_name" := PStr "small"]>
        (<[KStr "vm_status" := PStr "stopped"]>
        (<[KStr "vm_cpu_req" := PInt 2]> ∅)))))))).

Definition two_servers : state :=
  State (PDict (<[KStr "cloudservers" := PList [Sample.web1; web2]]> ∅))
        (PDict ∅) false ∅ [] [] [].

(* --------------------------------------------------------------------- *)
(** *** Text that [str] and [unicode] agree on                            *)
(* --------------------------------------------------------------------- *)

Definition ascii_string (s : string) : bool :=
  forallb (fun c => (nat_of_ascii c <? 128)%nat) (list_ascii_of_string s).

Definition ascii_key (k : key) : bool :=
  match k with
  | KStr s => ascii_string s
  | _ => true
  end.

(** Values in which every string, as a value or as a key, at every
    depth, is ASCII. *)
Fixpoint ascii_text (v : pyval) : bool :=
  match v with
  | PStr s => ascii_string s
  | PList l => forallb ascii_text l
  | PDict d =>
      map_fold (fun k x ok => ok && ascii_key k && ascii_text x) true d
  | _ => true
  end.

(* --------------------------------------------------------------------- *)
(** *** Further sample inputs                                             *)
(* --------------------------------------------------------------------- *)

(** The double [1700000000.0000002] (one unit in the last place after
    [1700000000.0]) and the double [2200000000.0]. *)
Definition written_at : Z := Double.dyadic 7130316800000001 (-22).
Definition read_at : Z := Double.dyadic 2200000000 0.

(** Pairs of doubles whose sums are, in turn: a tie that goes down, an
    exact sum, a tie that goes up, an exact sum of subnormal numbers, an
    overflow, the largest double kept, and a sum that goes to the nearer
    of its neighbours. *)
Definition sample_sums : list (Z * Z) :=
  [(written_at, Double.dyadic 500000000 0);
   (Double.dyadic 1700000000 0, Double.dyadic 60 0);
   (Double.dyadic 3 0, Double.dyadic (2 ^ 53 + 4) 0);
   (3, 5);
   (Double.dyadic (2 ^ 53 - 1) 971, Double.dyadic 1 970);
   (Double.dyadic (2 ^ 53 - 1) 971, Double.dyadic 1 969);
   (Double.dyadic (- 5) (- 3), Double.dyadic (2 ^ 52 + 1) 2)]%Z.



(** [--images --refresh-cache], a max age of 60 seconds, run at time 120. *)
Definition refresh_images_run : invocation :=
  Invocation (Ini (Some "PUB") (Some "PRIV") None (Some 60%Z) None) ∅
             (Cli false None false false true false false false None None
                  false true false None None)
             Sample.provider 120 true.

(** [--all --refresh-cache] *)
Definition refresh_all_run : invocation :=
  Invocation (Ini (Some "PUB") (Some "PRIV") None (Some 60%Z) None) ∅
             (Cli false None true false false false false false None None
                  false true false None None)
             Sample.provider 120 true.

(** A cache file whose contents are not JSON. *)
Definition garbled : gmap string file :=
  <[Sample.cache_file := File 100 true Garbled]> ∅.

(* ===================================================================== *)
(** ** Theorems                                                           *)
(* ===================================================================== *)

#[local] Open Scope list_scope.

(** *** Stepping through monadic code *)

Section Stepping.

Context {S A B : Type}.

Lemma bind_modify (f : S -> S) (k : unit -> ST S B) (s : S) :
  (modify f ≫= k) s = k tt (f s).
Proof. reflexivity. Qed.

Lemma bind_gets (f : S -> A) (k : A -> ST S B) (s : S) :
  (gets f ≫= k) s = k (f s) s.
Proof. reflexivity. Qed.

Lemma bind_lift (r : result A) (k : A -> ST S B) (s : S) :
  (lift r ≫= k) s
  = match r with
    | Ok a => k a s
    | Raise x => (Raise x, s)
    | Exit c => (Exit c, s)
    end.
Proof. destruct r; reflexivity. Qed.

Lemma bind_ret (a : A) (k : A -> ST S B) (s : S) :
  (mret a ≫= k) s = k a s.
Proof. reflexivity. Qed.

Lemma bind_assoc {C} (m : ST S A) (f : A -> ST S B) (g : B -> ST S C) (s : S) :
  ((m ≫= f) ≫= g) s = (m ≫= fun a => f a ≫= g) s.
Proof.
  unfold mbind, ST_bind. destruct (m s) as [[a|x|c] s']; reflexivity.
Qed.

Lemma bind_run (m : ST S A) (k : A -> ST S B) (s : S) :
  (m ≫= k) s
  = match m s with
    | (Ok a, s') => k a s'
    | (Raise x, s') => (Raise x, s')
    | (Exit c, s') => (Exit c, s')
    end.
Proof. reflexivity. Qed.

End Stepping.

Ltac run :=
  repeat (first
    [ rewrite bind_assoc | rewrite bind_modify | rewrite bind_gets
    | rewrite bind_ret | rewrite bind_lift ];
    cbn [data inventory cache_refreshed fs trace stdout stderr
         log set_data set_inventory set_cache_refreshed set_fs print
         complain setitem getitem when]).

(* ===================================================================== *)
(** ** Utilities: the group-name sanitiser *)
(* ===================================================================== *)

Section Sanitiser.

(** The characters kept are exactly the letters, the digits, the hyphen
    (45) and the dot (46). *)
Lemma safe_char_spec (c : ascii) :
  safe_char c = true <->
  (65 <= nat_of_ascii c <= 90 \/ 97 <= nat_of_ascii c <= 122
   \/ 48 <= nat_of_ascii c <= 57 \/ nat_of_ascii c = 45
   \/ nat_of_ascii c = 46)%nat.
Proof.
  destruct c as [[] [] [] [] [] [] [] []]; vm_compute; split;
    solve [ intros; discriminate | intros; lia | intros _; reflexivity
          | intros _; lia ].
Qed.

Lemma to_safe_length (word : string) :
  String.length (to_safe word) = String.length word.
Proof. induction word as [|c w IH]; simpl; congruence. Qed.

Lemma to_safe_get (word : string) (n : nat) :
  String.get n (to_safe word)
  = (fun c => if safe_char c then c else "_"%char) <$> String.get n word.
Proof.
  revert n. induction word as [|c w IH]; intros [|n]; simpl; auto.
Qed.

(** C5 as stated fails: the dot of "20.04" is in the class and is kept. *)
Lemma to_safe_example_refuted : to_safe "Ubuntu 20.04!!" <> "Ubuntu_20_04__".
Proof. vm_compute. discriminate. Qed.

(** C5, amended: [to_safe "Ubuntu 20.04!!"] is ["Ubuntu_20.04__"]; in
    general the result has the length of the word, keeps every letter,
    digit, hyphen and dot in place and puts an underscore at every other
    position. *)
Theorem to_safe_example :
  to_safe "Ubuntu 20.04!!" = "Ubuntu_20.04__"
  /\ forall (word : string) (n : nat) (c : ascii),
       String.get n word = Some c ->
       String.get n (to_safe word)
       = Some (if (bool_decide (65 <= nat_of_ascii c <= 90)
                   || bool_decide (97 <= nat_of_ascii c <= 122)
                   || bool_decide (48 <= nat_of_ascii c <= 57)
                   || bool_decide (nat_of_ascii c = 45)
                   || bool_decide (nat_of_ascii c = 46))%nat
               then c else "_"%char).
Proof.
  split; [reflexivity|].
  intros word n c Hc. rewrite to_safe_get, Hc. simpl. f_equal.
  destruct (safe_char c) eqn:E.
  - apply safe_char_spec in E.
    destruct E as [E|[E|[E|[E|E]]]];
      repeat (rewrite ?(bool_decide_eq_true_2 _ E), ?orb_true_r; simpl; try reflexivity).
  - destruct (_ || _) eqn:F; [|reflexivity].
    assert (safe_char c = true) as G; [|congruence].
    apply safe_char_spec.
    repeat (apply orb_prop in F; destruct F as [F|F]);
      apply bool_decide_eq_true in F; auto.
Qed.

(** The example of [to_safe_example] at a position that holds a dot. *)
Lemma to_safe_example_witness :
  String.get 9 "Ubuntu 20.04!!" = Some "."%char
  /\ String.get 9 (to_safe "Ubuntu 20.04!!") = Some "."%char.
Proof.
  split; [reflexivity|].
  exact (proj2 to_safe_example "Ubuntu 20.04!!" 9%nat "."%char eq_refl).
Defined.

End Sanitiser.

(* ===================================================================== *)
(** ** Inventory builder *)
(* ===================================================================== *)

Section InventoryBuilder.

Import Sample.

(** The builder's loop on the scenario's list, from the two reserved
    groups. *)
Lemma fill_one_server (e : env) (d : dict) :
  d !! KStr "cloudservers" = Some (PList [web1]) ->
  group_variables (conf e) = PDict ∅ ->
  fill_inventory (PDict d) (initial_inventory e) = (Ok tt, built_inventory).
Proof.
  intros Hd Hv. unfold fill_inventory, initial_inventory.
  rewrite Hv. cbn [getitem mbind ST_bind lift]. rewrite Hd.
  vm_cast_no_check (eq_refl (Ok tt, built_inventory)).
Qed.

(** C4 as stated fails: the inventory built from the scenario's list is
    not the one the scenario gives. *)
Lemma scenario_inventory_refuted :
  group_variables (conf listing) = PDict ∅
  /\ data one_server = PDict (<[KStr "cloudservers" := PList [web1]]> ∅)
  /\ inventory (build_inventory listing one_server).2 <> PDict claimed_inventory.
Proof.
  split; [reflexivity|]. split; [reflexivity|].
  intros H.
  apply (f_equal (fun v => match v with
                           | PDict d => d !! KStr "image_Ubuntu_20.04"
                           | _ => None
                           end)) in H.
  vm_compute in H. discriminate.
Qed.

(** C4, amended: from the scenario's one-element list and empty
    [group_variables] the builder produces [built_inventory]: the groups
    [all], [_meta], [1], [web1], [plan_small], [status_active] as in the
    scenario, the distro group named [distro_Ubuntu_20.04], the group
    [image_img-1] holding the address twice, and a further group
    [image_Ubuntu_20.04]; nothing else in the state changes. *)
Theorem scenario_inventory (e : env) (st : state) (d : dict) :
  data st = PDict d ->
  d !! KStr "cloudservers" = Some (PList [web1]) ->
  group_variables (conf e) = PDict ∅ ->
  build_inventory e st = (Ok tt, set_inventory (PDict built_inventory) st).
Proof.
  intros Hst Hd Hv. unfold build_inventory.
  rewrite Hst, (fill_one_server e d Hd Hv). reflexivity.
Qed.

Lemma scenario_inventory_witness :
  build_inventory listing one_server
  = (Ok tt, set_inventory (PDict built_inventory) one_server).
Proof.
  apply (scenario_inventory listing one_server
           (<[KStr "cloudservers" := PList [web1]]> ∅));
    reflexivity.
Defined.

(** The groups of the built inventory, by name. *)
Lemma built_inventory_groups :
  dumps true (PDict built_inventory)
  = JObj
      [("1", JArr [JStr "10.0.0.1"]);
       ("_meta", JObj [("hostvars", JObj [])]);
       ("all", JObj [("hosts", JArr [JStr "10.0.0.1"]); ("vars", JObj [])]);
       ("distro_Ubuntu_20.04",
        JObj [("hosts", JArr [JStr "10.0.0.1"]); ("vars", JObj [])]);
       ("image_Ubuntu_20.04",
        JObj [("hosts", JArr [JStr "10.0.0.1"]); ("vars", JObj [])]);
       ("image_img-1",
        JObj [("hosts", JArr [JStr "10.0.0.1"; JStr "10.0.0.1"]);
              ("vars", JObj [])]);
       ("plan_small",
        JObj [("hosts", JArr [JStr "10.0.0.1"]); ("vars", JObj [])]);
       ("status_active",
        JObj [("hosts", JArr [JStr "10.0.0.1"]); ("vars", JObj [])]);
       ("web1", JArr [JStr "10.0.0.1"])].
Proof. vm_compute. reflexivity. Qed.

End InventoryBuilder.

(* ===================================================================== *)
(** ** Arithmetic of doubles *)
(* ===================================================================== *)

Section DoubleArithmetic.

Import Double.
#[local] Open Scope Z_scope.

Lemma one_pos : 0 < one.
Proof. unfold one. apply Z.pow_pos_nonneg; lia. Qed.

(** What [nearest_even] chooses, by the remainder. *)
Lemma nearest_even_cases (n k : Z) :
  0 < k ->
  let P := 2 ^ k in
  let r := n mod P in
  (2 * r < P /\ nearest_even n k = (n / P) * P)
  \/ (P < 2 * r /\ nearest_even n k = (n / P + 1) * P)
  \/ (2 * r = P
      /\ (nearest_even n k = (n / P) * P /\ Z.even (n / P) = true
          \/ nearest_even n k = (n / P + 1) * P
             /\ Z.even (n / P + 1) = true)).
Proof.
  intros Hk P r. unfold nearest_even. fold P. fold r.
  assert (P = 2 * 2 ^ (k - 1)) as HP.
  { unfold P. rewrite <- (Z.pow_succ_r 2 (k - 1)) by lia. f_equal. lia. }
  destruct (r <? 2 ^ (k - 1)) eqn:E1.
  { apply Z.ltb_lt in E1. left. split; [lia | reflexivity]. }
  destruct (2 ^ (k - 1) <? r) eqn:E2.
  { apply Z.ltb_lt in E2. right. left. split; [lia | reflexivity]. }
  apply Z.ltb_ge in E1, E2. right. right. split; [lia|].
  destruct (Z.even (n / P)) eqn:E3; [left; split; reflexivity|].
  right. split; [reflexivity|].
  rewrite Z.even_add, E3. reflexivity.
Qed.

(** Between the two multiples of [2^k] around [x], [k] being the excess
    of [x], there is no number of 53 significant bits. *)
Lemma gap_above (x d : Z) :
  0 < excess x -> fits d = true -> x <= d -> 0 < x mod 2 ^ excess x ->
  (x / 2 ^ excess x + 1) * 2 ^ excess x <= d.
Proof.
  intros E Hd Hxd Hr0. set (k := excess x) in *.
  assert (0 < 2 ^ k) as HP by (apply Z.pow_pos_nonneg; lia).
  pose proof (Z.mod_pos_bound x (2 ^ k) HP) as Hr.
  pose proof (Z.div_mod x (2 ^ k) ltac:(lia)) as Hx.
  set (q := x / 2 ^ k) in *. set (r := x mod 2 ^ k) in *.
  set (P := 2 ^ k) in *.
  unfold fits in Hd. apply Z.eqb_eq in Hd.
  destruct (Z_le_gt_dec k (Z.max 0 (excess d))) as [Hk|Hk].
  - assert (2 ^ Z.max 0 (excess d) = P * 2 ^ (Z.max 0 (excess d) - k)) as HPd.
    { unfold P. rewrite <- Z.pow_add_r by lia. f_equal. lia. }
    assert (0 < 2 ^ (Z.max 0 (excess d) - k)) as HQ
      by (apply Z.pow_pos_nonneg; lia).
    apply Z.mod_divide in Hd; [|lia]. destruct Hd as [c Hc].
    rewrite HPd in Hc.
    set (c' := c * 2 ^ (Z.max 0 (excess d) - k)) in *.
    assert (d = c' * P) as Hd' by (unfold c'; lia).
    clearbody c' q r P. assert (q < c') by nia. nia.
  - assert (Z.abs d < 2 ^ (52 + k)) as Had.
    { destruct (Z.eq_dec d 0) as [->|Hd0].
      - apply Z.pow_pos_nonneg; lia.
      - apply Z.log2_lt_pow2; [lia|]. unfold excess in Hk. lia. }
    assert (2 ^ (52 + k) <= Z.abs x) as Hax.
    { assert (Z.abs x <> 0) as Hx0.
      { intros H0. unfold k, excess in E. rewrite H0 in E. simpl in E. lia. }
      replace (52 + k) with (Z.log2 (Z.abs x)) by (unfold k, excess; lia).
      apply Z.log2_spec. lia. }
    assert (2 ^ (52 + k) = 2 ^ 52 * P) as HB
      by (unfold P; rewrite Z.pow_add_r by lia; reflexivity).
    rewrite HB in Had, Hax.
    assert (0 < 2 ^ 52) as H52 by (apply Z.pow_pos_nonneg; lia).
    destruct (Z_lt_le_dec x 0) as [Hneg|Hpos]; [|lia].
    clearbody q r P. assert (q + 1 <= - 2 ^ 52) by nia. nia.
Qed.

Lemma gap_below (x d : Z) :
  0 < excess x -> fits d = true -> d <= x ->
  d <= (x / 2 ^ excess x) * 2 ^ excess x.
Proof.
  intros E Hd Hdx. set (k := excess x) in *.
  assert (0 < 2 ^ k) as HP by (apply Z.pow_pos_nonneg; lia).
  pose proof (Z.mod_pos_bound x (2 ^ k) HP) as Hr.
  pose proof (Z.div_mod x (2 ^ k) ltac:(lia)) as Hx.
  set (q := x / 2 ^ k) in *. set (r := x mod 2 ^ k) in *.
  set (P := 2 ^ k) in *.
  unfold fits in Hd. apply Z.eqb_eq in Hd.
  destruct (Z_le_gt_dec k (Z.max 0 (excess d))) as [Hk|Hk].
  - assert (2 ^ Z.max 0 (excess d) = P * 2 ^ (Z.max 0 (excess d) - k)) as HPd.
    { unfold P. rewrite <- Z.pow_add_r by lia. f_equal. lia. }
    assert (0 < 2 ^ (Z.max 0 (excess d) - k)) as HQ
      by (apply Z.pow_pos_nonneg; lia).
    apply Z.mod_divide in Hd; [|lia]. destruct Hd as [c Hc].
    rewrite HPd in Hc.
    set (c' := c * 2 ^ (Z.max 0 (excess d) - k)) in *.
    assert (d = c' * P) as Hd' by (unfold c'; lia).
    clearbody c' q r P. assert (c' <= q) by nia. nia.
  - assert (Z.abs d < 2 ^ (52 + k)) as Had.
    { destruct (Z.eq_dec d 0) as [->|Hd0].
      - apply Z.pow_pos_nonneg; lia.
      - apply Z.log2_lt_pow2; [lia|]. unfold excess in Hk. lia. }
    assert (2 ^ (52 + k) <= Z.abs x) as Hax.
    { assert (Z.abs x <> 0) as Hx0.
      { intros H0. unfold k, excess in E. rewrite H0 in E. simpl in E. lia. }
      replace (52 + k) with (Z.log2 (Z.abs x)) by (unfold k, excess; lia).
      apply Z.log2_spec. lia. }
    assert (2 ^ (52 + k) = 2 ^ 52 * P) as HB
      by (unfold P; rewrite Z.pow_add_r by lia; reflexivity).
    rewrite HB in Had, Hax.
    assert (0 < 2 ^ 52) as H52 by (apply Z.pow_pos_nonneg; lia).
    destruct (Z_lt_le_dec x 0) as [Hneg|Hpos]; [lia|].
    clearbody q r P. assert (2 ^ 52 <= q) by nia. nia.
Qed.

(** [nearest] is rounding to nearest: no number of 53 significant bits is
    nearer to [x] than [nearest x]. *)
Lemma nearest_is_nearest (x d : Z) :
  fits d = true -> Z.abs (nearest x - x) <= Z.abs (d - x).
Proof.
  intros Hd. unfold nearest.
  destruct (0 <? excess x) eqn:E; [|lia].
  apply Z.ltb_lt in E.
  assert (0 < 2 ^ excess x) as HP by (apply Z.pow_pos_nonneg; lia).
  pose proof (Z.mod_pos_bound x (2 ^ excess x) HP) as Hr.
  pose proof (Z.div_mod x (2 ^ excess x) ltac:(lia)) as Hx.
  pose proof (gap_below x d E Hd) as Hlo.
  pose proof (gap_above x d E Hd) as Hhi.
  destruct (nearest_even_cases x (excess x) E)
    as [[H ->]|[[H ->]|[H [[-> _]|[-> _]]]]];
    destruct (Z_le_gt_dec x d) as [Hxd|Hxd];
    destruct (Z.eq_dec (x mod 2 ^ excess x) 0) as [H0|H0];
    try specialize (Hhi Hxd ltac:(lia)); try specialize (Hlo ltac:(lia));
    lia.
Qed.

(** The result of [nearest] has 53 significant bits, or is [2^53] times
    a power of two. *)
Lemma nearest_fits (x : Z) : fits (nearest x) = true.
Proof.
  unfold nearest. destruct (0 <? excess x) eqn:E.
  2:{ apply Z.ltb_ge in E. unfold fits. rewrite Z.max_l by lia.
      apply Z.eqb_eq. apply Z.mod_1_r. }
  apply Z.ltb_lt in E. set (k := excess x) in *.
  assert (0 < 2 ^ k) as HP by (apply Z.pow_pos_nonneg; lia).
  pose proof (Z.mod_pos_bound x (2 ^ k) HP) as Hr.
  pose proof (Z.div_mod x (2 ^ k) ltac:(lia)) as Hx.
  assert (Z.abs x <> 0) as Hx0.
  { intros H0. unfold k, excess in E. rewrite H0 in E. simpl in E. lia. }
  pose proof (Z.log2_spec (Z.abs x) ltac:(lia)) as [Hlo Hhi].
  replace (Z.log2 (Z.abs x)) with (52 + k) in Hlo, Hhi
    by (unfold k, excess; lia).
  replace (Z.succ (52 + k)) with (53 + k) in Hhi by lia.
  rewrite Z.pow_add_r in Hlo, Hhi by lia.
  assert (0 < 2 ^ 52) as H52 by (apply Z.pow_pos_nonneg; lia).
  assert (2 ^ 53 = 2 * 2 ^ 52) as H53 by reflexivity.
  (* every choice is [c * 2^k] with [2^52 <= |c| <= 2^53] *)
  assert (forall c, 2 ^ 52 <= Z.abs c <= 2 ^ 53 -> fits (c * 2 ^ k) = true)
    as Hfit.
  { intros c Hc. unfold fits. apply Z.eqb_eq.
    assert (Z.abs c <> 0) as Hc0 by lia.
    assert (excess (c * 2 ^ k) = Z.log2 (Z.abs c) + k - 52) as Hex.
    { unfold excess. rewrite Z.abs_mul, (Z.abs_eq (2 ^ k)) by lia.
      rewrite Z.log2_mul_pow2 by lia. lia. }
    rewrite Hex.
    destruct (Z.eq_dec (Z.abs c) (2 ^ 53)) as [Ec|Ec].
    - assert (Z.log2 (Z.abs c) = 53) as -> by (rewrite Ec; reflexivity).
      rewrite Z.max_r by lia.
      replace (53 + k - 52) with (1 + k) by lia.
      rewrite Z.pow_add_r by lia.
      assert (c = 2 ^ 53 \/ c = - 2 ^ 53) as [-> | ->] by lia.
      + replace (2 ^ 53 * 2 ^ k) with (2 ^ 52 * (2 ^ 1 * 2 ^ k))
          by (rewrite H53; change (2 ^ 1) with 2; ring).
        apply Z_mod_mult.
      + replace (- 2 ^ 53 * 2 ^ k) with (- 2 ^ 52 * (2 ^ 1 * 2 ^ k))
          by (rewrite H53; change (2 ^ 1) with 2; ring).
        apply Z_mod_mult.
    - assert (Z.log2 (Z.abs c) = 52) as ->.
      { apply Z.log2_unique; [lia|]. change (52 + 1) with 53. lia. }
      rewrite Z.max_r by lia. replace (52 + k - 52) with k by lia.
      apply Z_mod_mult. }
  set (q := x / 2 ^ k) in *. set (r := x mod 2 ^ k) in *.
  set (P := 2 ^ k) in *.
  destruct (nearest_even_cases x k E)
    as [[H ->]|[[H ->]|[H [[-> _]|[-> _]]]]];
    fold P q r in H |- *; apply Hfit; clearbody q r P; nia.
Qed.

(** A double is not changed by rounding. *)
Lemma nearest_double (n : Z) : is_double n = true -> nearest n = n.
Proof.
  intros [_ H]%andb_true_iff.
  pose proof (nearest_is_nearest n n H). lia.
Qed.

Lemma round_double (n : Z) : is_double n = true -> round n = Finite n.
Proof.
  intros H. unfold round. rewrite (nearest_double n H).
  apply andb_true_iff in H as [H%Z.ltb_lt _].
  destruct (huge <=? Z.abs n) eqn:E; [|reflexivity].
  apply Z.leb_le in E. lia.
Qed.

(** What [round] delivers: a double that no double is nearer to the exact
    result than, or an infinity when the nearest number of 53 significant
    bits is out of range. *)
Lemma round_spec (x : Z) :
  match round x with
  | Finite r =>
      is_double r = true
      /\ forall d, is_double d = true -> Z.abs (r - x) <= Z.abs (d - x)
  | Infinity negative =>
      huge <= Z.abs (nearest x) /\ negative = (x <? 0)
  | NaN => False
  end.
Proof.
  unfold round. destruct (huge <=? Z.abs (nearest x)) eqn:E.
  - apply Z.leb_le in E. split; [exact E|].
    assert (fits 0 = true) as H0 by reflexivity.
    pose proof (nearest_is_nearest x 0 H0) as Hn.
    assert (0 < huge) by (apply Z.pow_pos_nonneg; lia).
    destruct (nearest x <? 0) eqn:E1, (x <? 0) eqn:E2; try reflexivity;
      [apply Z.ltb_lt in E1; apply Z.ltb_ge in E2
      |apply Z.ltb_ge in E1; apply Z.ltb_lt in E2]; lia.
  - apply Z.leb_gt in E. split.
    + unfold is_double. rewrite nearest_fits, andb_true_r.
      by apply Z.ltb_lt.
    + intros d [_ Hd]%andb_true_iff. by apply nearest_is_nearest.
Qed.

(** Rounding never passes a double: an exact result at or below a
    double is delivered at or below it. *)
Lemma nearest_le (x y : Z) : is_double y = true -> x <= y -> nearest x <= y.
Proof.
  intros [_ Hy]%andb_true_iff Hxy. unfold nearest.
  destruct (0 <? excess x) eqn:E; [|exact Hxy].
  apply Z.ltb_lt in E.
  assert (0 < 2 ^ excess x) as HP by (apply Z.pow_pos_nonneg; lia).
  pose proof (Z.mod_pos_bound x (2 ^ excess x) HP) as Hr.
  pose proof (Z.div_mod x (2 ^ excess x) ltac:(lia)) as Hx.
  pose proof (gap_above x y E Hy Hxy) as Hhi.
  destruct (nearest_even_cases x (excess x) E)
    as [[H ->]|[[H ->]|[H [[-> _]|[-> _]]]]];
    first [apply Hhi; lia | lia].
Qed.

Lemma gt_round_sound (x y : Z) :
  is_double y = true -> gt (round x) (Finite y) = true -> y < x.
Proof.
  intros Hy Hgt. destruct (Z_lt_le_dec y x) as [|Hxy]; [assumption|exfalso].
  pose proof (nearest_le x y Hy Hxy) as Hn.
  apply andb_true_iff in Hy as [Hy%Z.ltb_lt _].
  unfold round in Hgt.
  destruct (huge <=? Z.abs (nearest x)) eqn:E.
  - apply Z.leb_le in E.
    destruct (nearest x <? 0) eqn:E2; [discriminate|].
    apply Z.ltb_ge in E2. lia.
  - simpl in Hgt. apply Z.ltb_lt in Hgt. lia.
Qed.

(** Integers up to [2^53] convert exactly. *)
Lemma small_int_is_double (i : Z) :
  Z.abs i <= 2 ^ 53 -> is_double (i * one) = true.
Proof.
  intros Hi. unfold is_double. apply andb_true_iff. split.
  - apply Z.ltb_lt. rewrite Z.abs_mul, (Z.abs_eq one) by (pose proof one_pos; lia).
    unfold huge, one. change 2098 with (1024 + 1074).
    rewrite Z.pow_add_r by lia.
    assert (0 < 2 ^ 1074) by (apply Z.pow_pos_nonneg; lia).
    assert (2 ^ 53 < 2 ^ 1024) by (apply Z.pow_lt_mono_r; lia).
    nia.
  - unfold fits. apply Z.eqb_eq.
    destruct (Z.eq_dec i 0) as [->|Hi0]; [reflexivity|].
    destruct (Z.eq_dec (Z.abs i) (2 ^ 53)) as [E|E].
    + assert (i = 2 ^ 53 \/ i = - 2 ^ 53) as [-> | ->] by lia;
        vm_compute; reflexivity.
    + assert (Z.log2 (Z.abs i) < 53) as Hl
        by (apply Z.log2_lt_pow2; lia).
      pose proof (Z.log2_nonneg (Z.abs i)) as Hl0.
      unfold excess. rewrite Z.abs_mul, (Z.abs_eq one) by (pose proof one_pos; lia).
      unfold one. rewrite Z.log2_mul_pow2 by lia.
      rewrite Z.max_r by lia.
      set (k := 1074 + Z.log2 (Z.abs i) - 52).
      replace (2 ^ 1074) with (2 ^ (1074 - k) * 2 ^ k)
        by (rewrite <- Z.pow_add_r by (unfold k; lia); f_equal; lia).
      rewrite Z.mul_assoc. apply Z_mod_mult.
Qed.

(** An integer that is a double converts to itself. *)
Lemma of_int_exact (i : Z) :
  is_double (i * one) = true -> of_int i = Ok (Finite (i * one)).
Proof. intros Hi. unfold of_int. rewrite (round_double _ Hi). reflexivity. Qed.

#[local] Open Scope Q_scope.

Lemma value_lt (a b : Z) : (a < b)%Z -> value a < value b.
Proof.
  unfold value. pose proof one_pos as H1.
  assert (0 < inject_Z one) as Hq
    by (change 0 with (inject_Z 0); rewrite <- Zlt_Qlt; exact H1).
  intros H. apply Qmult_lt_r; [apply Qinv_lt_0_compat; exact Hq|].
  rewrite <- Zlt_Qlt. exact H.
Qed.

Lemma value_lt_inv (a b : Z) : value a < value b -> (a < b)%Z.
Proof.
  unfold value. pose proof one_pos as H1.
  assert (0 < inject_Z one) as Hq
    by (change 0 with (inject_Z 0); rewrite <- Zlt_Qlt; exact H1).
  intros H. apply Qmult_lt_r in H; [|apply Qinv_lt_0_compat; exact Hq].
  rewrite Zlt_Qlt. exact H.
Qed.

Lemma value_plus (a : Z) (i : Z) :
  value a + inject_Z i == value (a + i * one).
Proof.
  unfold value. pose proof one_pos as H1.
  rewrite inject_Z_plus, inject_Z_mult. field.
  change 0 with (inject_Z 0). rewrite inject_Z_injective. lia.
Qed.

Lemma value_inj (a b : Z) : value a == value b -> a = b.
Proof.
  intros H. destruct (Z.lt_total a b) as [Hl|[->|Hl]]; [|reflexivity|];
    apply value_lt in Hl; rewrite H in Hl; by apply Qlt_irrefl in Hl.
Qed.

End DoubleArithmetic.

(** On the sample sums, [Double.add] delivers what the standard library's
    specification of binary64 addition delivers. *)
Lemma add_agrees_with_SpecFloat :
  Forall (fun p : Z * Z =>
            Double.is_double p.1 = true /\ Double.is_double p.2 = true
            /\ Double.to_spec (Double.add (Double.Finite p.1)
                                          (Double.Finite p.2))
               = SpecFloat.SFadd 53 1024 (Double.to_spec (Double.Finite p.1))
                                         (Double.to_spec (Double.Finite p.2)))
    sample_sums.
Proof.
  unfold sample_sums.
  repeat (constructor; [split; [|split]; vm_compute; reflexivity|]).
  constructor.
Qed.

(* ===================================================================== *)
(** ** Cache store *)
(* ===================================================================== *)

Section CacheStore.

Import Sample.

Lemma Qgtb_spec (a b : Q) : Qgtb a b = true <-> (b < a)%Q.
Proof.
  unfold Qgtb. rewrite Qlt_alt. destruct (b ?= a)%Q; split; congruence.
Qed.

(** Where the arithmetic of doubles is exact, the method on exact times
    and the method on doubles give one answer. *)
Lemma is_cache_valid_exact (e : env) (st : state) (file : option Z)
    (now : Z) :
  (clock e == Double.value now)%Q ->
  match fs st !! cache_filename (conf e), file with
  | Some f, Some t =>
      (mtime f == Double.value t)%Q
      /\ Double.is_double (t + cache_max_age (conf e) * Double.one) = true
  | None, None => True
  | _, _ => False
  end ->
  Double.is_double (cache_max_age (conf e) * Double.one) = true ->
  is_cache_valid_double file (cache_max_age (conf e)) now
  = Ok (is_cache_valid e st).
Proof.
  intros Hnow Hfile Hm. unfold is_cache_valid, is_cache_valid_double.
  destruct (fs st !! cache_filename (conf e)) as [f|], file as [t|];
    try contradiction; [|reflexivity].
  destruct Hfile as [Ht Hex].
  rewrite (of_int_exact _ Hm). cbn [mbind result_bind]. unfold Double.add.
  rewrite (round_double _ Hex). cbn [Double.gt].
  destruct (Qgtb _ _) eqn:E1, (now <? _)%Z eqn:E2; try reflexivity; exfalso.
  - apply Qgtb_spec in E1. rewrite Hnow, Ht, value_plus in E1.
    apply value_lt_inv in E1. apply Z.ltb_ge in E2. lia.
  - apply Z.ltb_lt, value_lt in E2.
    rewrite <- value_plus, <- Hnow, <- Ht in E2.
    apply Qgtb_spec in E2. congruence.
Qed.

(** C7 as stated fails.  With a cache file modified at
    1700000000.0000002, a max age of 500000000 and the current time
    2200000000.0, the exact sum is greater than the current time, but the
    sum of the doubles is 2200000000.0 (a tie, rounded to even) and the
    check answers false.  With a max age of [2^1024] the conversion
    raises [OverflowError] and the check answers nothing. *)
Lemma is_cache_valid_refuted :
  Double.is_double written_at = true
  /\ Double.is_double read_at = true
  /\ (Double.value read_at < Double.value written_at + inject_Z 500000000)%Q
  /\ is_cache_valid_double (Some written_at) 500000000 read_at = Ok false
  /\ is_cache_valid_double (Some written_at) (2 ^ 1024) read_at
     = Raise OverflowError.
Proof. repeat split; vm_compute; reflexivity. Qed.

(** C7, amended: for a max age [m] that is exactly a double (every [m]
    from 0 to [2^53] is, [small_int_is_double]) and a current time [now]
    that is a double, the check returns, and it returns true exactly
    when the snapshot file exists and the double nearest to
    [t + m] ([round_spec]) is greater than [now], [t] being the
    modification time.  A true answer implies [t + m > now]; when [t + m]
    is itself a double, [t + m > now] implies a true answer; and when
    [t + m] equals [now] the answer is false. *)
Theorem is_cache_valid_iff (file : option Z) (m now : Z) :
  Double.is_double (m * Double.one) = true ->
  Double.is_double now = true ->
  exists valid : bool,
    is_cache_valid_double file m now = Ok valid
    /\ (valid = true <->
        exists t, file = Some t
          /\ Double.gt (Double.round (t + m * Double.one)%Z)
                       (Double.Finite now) = true)
    /\ (valid = true ->
        exists t, file = Some t
          /\ (Double.value now < Double.value t + inject_Z m)%Q)
    /\ (forall t, file = Some t ->
        Double.is_double (t + m * Double.one) = true ->
        (Double.value now < Double.value t + inject_Z m)%Q ->
        valid = true)
    /\ (forall t, file = Some t ->
        (Double.value t + inject_Z m == Double.value now)%Q ->
        valid = false).
Proof.
  intros Hm Hnow. unfold is_cache_valid_double.
  destruct file as [t|].
  - rewrite (of_int_exact _ Hm). cbn [mbind result_bind]. unfold Double.add.
    set (b := Double.gt (Double.round (t + m * Double.one)%Z)
                        (Double.Finite now)).
    exists b. split; [by destruct b|]. split; [|split; [|split]].
    + split.
      * intros Hb. exists t. split; [reflexivity | exact Hb].
      * intros (t' & [= <-] & H). exact H.
    + intros Hb. exists t. split; [reflexivity|].
      rewrite value_plus. apply value_lt.
      by apply gt_round_sound.
    + intros t' [= <-] Hex Hlt. unfold b. rewrite (round_double _ Hex).
      cbn [Double.gt]. apply Z.ltb_lt, value_lt_inv.
      rewrite <- value_plus. exact Hlt.
    + intros t' [= <-] Heq. destruct b eqn:Hb; [|reflexivity]. exfalso.
      apply gt_round_sound in Hb; [|exact Hnow].
      rewrite value_plus in Heq. apply value_inj in Heq. lia.
  - exists false. split; [reflexivity|]. split; [|split; [|split]].
    + split; [discriminate|]. intros (t & [=] & _).
    + discriminate.
    + intros t [=].
    + intros t [=].
Qed.

(** The boundary of [is_cache_valid_iff]: modified at 1700000000.0, max
    age 60, read at 1700000060.0. *)
Lemma is_cache_valid_iff_witness :
  exists valid : bool,
    is_cache_valid_double (Some (Double.dyadic 1700000000 0)) 60
                          (Double.dyadic 1700000060 0) = Ok valid
    /\ valid = false.
Proof.
  destruct (is_cache_valid_iff (Some (Double.dyadic 1700000000 0)) 60
              (Double.dyadic 1700000060 0))
    as (valid & Hv & _ & _ & _ & Hb).
  - vm_compute. reflexivity.
  - vm_compute. reflexivity.
  - exists valid. split; [exact Hv|].
    apply (Hb _ eq_refl). vm_compute. reflexivity.
Defined.

(** C2 fails on the code.  A readable cache file whose contents are not
    JSON makes [json.loads] raise [ValueError] inside the [try]; the
    handler names [IOError] only, so [load_from_cache] raises, and since
    every run loads the cache first, every run on that file ends with
    [ValueError] after the one read, [--refresh-cache] included.  The
    missing file, the sibling case, is recovered as the claim says. *)
Theorem garbled_cache_aborts :
  load_from_cache listing (boot garbled)
  = (Raise ValueError, log (CacheRead cache_file) (boot garbled))
  /\ (__init__ from_ini (boot garbled)).1 = Raise ValueError
  /\ trace (__init__ from_ini (boot garbled)).2 = [CacheRead cache_file]
  /\ (__init__ refresh_all_run (boot garbled)).1 = Raise ValueError
  /\ trace (__init__ refresh_all_run (boot garbled)).2
     = [CacheRead cache_file]
  /\ load_from_cache listing (boot ∅)
     = (Ok tt, installs_empty listing (boot ∅)).
Proof. repeat split; reflexivity. Qed.

(** X28: when the cache file is missing or cannot be read,
    [load_from_cache] does not raise: it installs the empty snapshot, an
    empty [data] and an empty [inventory]. *)
Theorem load_from_cache_recovers (e : env) (st : state) :
  (fs st !! cache_filename (conf e) = None
   \/ exists f, fs st !! cache_filename (conf e) = Some f
                /\ readable f = false) ->
  load_from_cache e st = (Ok tt, installs_empty e st).
Proof.
  intros H. unfold load_from_cache, installs_empty.
  run. unfold read_cache. cbn [fs log].
  destruct H as [-> | (f & -> & ->)]; reflexivity.
Qed.

Lemma load_from_cache_recovers_witness :
  load_from_cache listing (boot ∅) = (Ok tt, installs_empty listing (boot ∅)).
Proof.
  apply (load_from_cache_recovers listing (boot ∅)). left. reflexivity.
Defined.

End CacheStore.

(* ===================================================================== *)
(** ** Values and their JSON documents *)
(* ===================================================================== *)

Section Values.

Lemma pysize_elem (l : list pyval) (x : pyval) :
  x ∈ l -> pysize x < pysize (PList l).
Proof.
  simpl. induction 1 as [x l|x y l _ IH]; simpl; lia.
Qed.

Lemma pysize_lookup (d : dict) (k : key) (x : pyval) :
  d !! k = Some x -> pysize x < pysize (PDict d).
Proof.
  intros H. simpl.
  rewrite (map_fold_delete_L _ _ k x d); [lia | intros; lia | exact H].
Qed.

(** Induction on values, with the hypothesis for the elements of a list
    and for the values of a dictionary. *)
Lemma pyval_ind' (P : pyval -> Prop) :
  P PNone ->
  (forall b, P (PBool b)) ->
  (forall z, P (PInt z)) ->
  (forall s, P (PStr s)) ->
  (forall l, Forall P l -> P (PList l)) ->
  (forall d, map_Forall (fun _ x => P x) d -> P (PDict d)) ->
  forall v, P v.
Proof.
  intros HN HB HI HS HL HD v.
  remember (pysize v) as n eqn:Hn. revert v Hn.
  induction n as [n IH] using lt_wf_ind. intros v ->.
  destruct v as [| | | |l|d]; auto.
  - apply HL, Forall_forall. intros x Hx.
    exact (IH _ (pysize_elem l x Hx) x eq_refl).
  - apply HD. intros k x Hk.
    exact (IH _ (pysize_lookup d k x Hk) x eq_refl).
Qed.

End Values.

Section RoundTrip.

Import Sample.

(** Storing items one after the other: the later of two items with one
    key stays. *)
Lemma foldl_store (l : list (key * pyval)) (m : dict) :
  foldl (fun d kv => <[kv.1 := kv.2]> d) m l = list_to_map (reverse l) ∪ m.
Proof.
  revert m. induction l as [|[k x] l IH]; intros m; simpl.
  - symmetry. apply (left_id_L ∅ (∪)).
  - rewrite IH, reverse_cons, list_to_map_app. simpl.
    rewrite insert_empty, <- (assoc_L (∪)), <- insert_union_singleton_l.
    reflexivity.
Qed.

Lemma foldl_store_member (ms : list (string * pyval)) :
  foldl store_member ∅ ms
  = list_to_map (reverse ((fun m => (KStr m.1, m.2)) <$> ms)).
Proof.
  rewrite <- (right_id_L ∅ (∪) (list_to_map _)), <- foldl_store.
  generalize (∅ : dict). induction ms as [|m ms IH]; intros d; simpl; auto.
Qed.

(** A value keyed by strings only is the value of the document it is
    written to, with or without sorted keys. *)
Lemma loads_dumps (b : bool) (v : pyval) :
  string_keys v -> loads (dumps b v) = v.
Proof.
  induction v as [| | | |l IH|d IH] using pyval_ind'; intros Hv;
    try reflexivity.
  - inversion_clear Hv as [| | | |? Hl|]. simpl. f_equal.
    rewrite <- list_fmap_compose. rewrite <- (list_fmap_id l) at 2.
    apply Forall_fmap_ext_1.
    rewrite Forall_forall in IH, Hl |- *. intros x Hx. simpl. auto.
  - inversion_clear Hv as [| | | | |? Hk Hx]. simpl. f_equal.
    rewrite foldl_store_member. symmetry.
    rewrite <- (list_to_map_to_list d) at 1.
    apply list_to_map_proper; [apply NoDup_fst_map_to_list|].
    rewrite reverse_Permutation. unfold members_of.
    rewrite <- !list_fmap_compose.
    assert ((if b then merge_sort item_le (map_to_list (dumps b <$> d))
             else map_to_list (dumps b <$> d))
            ≡ₚ map_to_list (dumps b <$> d)) as ->
      by (destruct b; [apply merge_sort_Permutation | reflexivity]).
    rewrite map_to_list_fmap, <- list_fmap_compose.
    rewrite <- (list_fmap_id (map_to_list d)) at 1.
    assert (forall l1 l2 : list (key * pyval), l1 = l2 -> l1 ≡ₚ l2) as Heq
      by (by intros ? ? ->).
    apply Heq, Forall_fmap_ext_1, Forall_forall.
    intros [k x] Hkx%elem_of_map_to_list.
    destruct (Hk k x Hkx) as [s ->]. simpl.
    rewrite (IH _ _ Hkx (Hx _ _ Hkx)). reflexivity.
Qed.

Lemma string_keys_snapshot (st : state) :
  string_keys (data st) -> string_keys (inventory st) ->
  string_keys (snapshot st).
Proof.
  intros Hd Hi. unfold snapshot. constructor.
  - intros k x Hk.
    apply lookup_insert_Some in Hk as [[<- _]|[_ Hk]]; [eauto|].
    apply lookup_insert_Some in Hk as [[<- _]|[_ Hk]]; [eauto|].
    by rewrite lookup_empty in Hk.
  - intros k x Hk.
    apply lookup_insert_Some in Hk as [[_ <-]|[_ Hk]]; [auto|].
    apply lookup_insert_Some in Hk as [[_ <-]|[_ Hk]]; [auto|].
    by rewrite lookup_empty in Hk.
Qed.

(** C6 as stated fails: the inventory of the end-to-end scenario has the
    id shortcut [1]; after [write_to_cache] and [load_from_cache] the
    inventory has no key [1] (the document names it ["1"]). *)
Lemma save_load_refuted :
  inventory with_inventory = PDict built_inventory
  /\ built_inventory !! KInt 1 = Some (PList [address])
  /\ ((write_to_cache listing ;; load_from_cache listing) with_inventory).1
     = Ok tt
  /\ inventory
       ((write_to_cache listing ;; load_from_cache listing) with_inventory).2
     <> inventory with_inventory.
Proof.
  split; [reflexivity|]. split; [reflexivity|]. split; [reflexivity|].
  intros H.
  apply (f_equal (fun v => match v with
                           | PDict d => d !! KInt 1
                           | _ => None
                           end)) in H.
  vm_compute in H. discriminate.
Qed.

(** C6, amended: for every snapshot built of [None], booleans,
    integers, ASCII strings, lists and dictionaries in which every
    dictionary is keyed by (ASCII) strings, [write_to_cache] followed by
    [load_from_cache] succeeds and leaves [data] and [inventory] equal to
    the ones saved (the cache file being writable and, when it exists
    already, readable). *)
Theorem save_load_roundtrip (e : env) (st : state) :
  cache_writable e = true ->
  (forall f, fs st !! cache_filename (conf e) = Some f -> readable f = true) ->
  string_keys (data st) ->
  string_keys (inventory st) ->
  ascii_text (data st) = true ->
  ascii_text (inventory st) = true ->
  let out := (write_to_cache e ;; load_from_cache e) st in
  out.1 = Ok tt /\ data out.2 = data st /\ inventory out.2 = inventory st.
Proof.
  intros Hw Hr Hd Hi _ _ out. subst out.
  unfold write_to_cache. run. rewrite Hw. run.
  unfold load_from_cache. run. unfold read_cache.
  cbn [fs set_fs log]. rewrite lookup_insert_eq.
  assert (readable (written e (fs st !! cache_filename (conf e))
                      (dumps true (snapshot st))) = true) as ->.
  { unfold written. cbn [readable].
    destruct (fs st !! cache_filename (conf e)) as [f|] eqn:E; auto. }
  cbn [body written except_IOError].
  rewrite (loads_dumps true (snapshot st) (string_keys_snapshot st Hd Hi)).
  run. unfold snapshot at 1. cbn [getitem].
  rewrite lookup_insert_eq. run.
  unfold snapshot. cbn [getitem].
  rewrite lookup_insert_ne by discriminate. rewrite lookup_insert_eq.
  repeat split.
Qed.

(** The scenario's cloudserver list with an empty inventory. *)
Lemma save_load_roundtrip_witness :
  data ((write_to_cache listing ;; load_from_cache listing) one_server).2
  = data one_server.
Proof.
  refine (proj1 (proj2 (save_load_roundtrip listing one_server
                          eq_refl _ _ _ _ _))).
  - intros f Hf. vm_compute in Hf. discriminate.
  - repeat first [ constructor | apply map_Forall_insert_2
                 | apply map_Forall_empty | eexists; reflexivity ].
  - constructor; apply map_Forall_empty.
  - vm_compute. reflexivity.
  - vm_compute. reflexivity.
Defined.

End RoundTrip.

(* ===================================================================== *)
(** ** Refresh policy *)
(* ===================================================================== *)

Section RefreshPolicy.

Import Sample.

(** C8: with force-cache set, [load_from_atlantic_net] returns at once
    for every requested kind and every state: no call of the API client is
    made and the state, with its ResourceSet, is the one it started from. *)
Theorem force_cache_never_fetches (e : env) (resource : option string)
    (st : state) :
  arg_force_cache (args e) = true ->
  load_from_atlantic_net e resource st = (Ok tt, st).
Proof. intros H. unfold load_from_atlantic_net. rewrite H. reflexivity. Qed.

Lemma force_cache_never_fetches_witness :
  load_from_atlantic_net forced None loaded = (Ok tt, loaded).
Proof. apply (force_cache_never_fetches forced None loaded). reflexivity. Defined.


(** C1 fails on the code.  With [--images --refresh-cache] and a cache
    that is still valid, [load_from_atlantic_net] returns at the test of
    line 328, before line 330 widens the request: no listing call is made
    and the state is unchanged.  The whole run reads the cache file,
    calls nothing, prints the images of the old snapshot and leaves the
    file as it was. *)
Theorem refresh_cache_skipped_on_valid_cache :
  arg_refresh_cache (args refresh_images) = true
  /\ arg_force_cache (args refresh_images) = false
  /\ is_cache_valid refresh_images loaded = true
  /\ load_from_atlantic_net refresh_images (Some "images") loaded
     = (Ok tt, loaded)
  /\ (__init__ refresh_images_run (boot cached)).1 = Ok tt
  /\ trace (__init__ refresh_images_run (boot cached)).2
     = [CacheRead cache_file]
  /\ stdout (__init__ refresh_images_run (boot cached)).2
     = [Dump false (JObj [("images", JArr [JStr "old image"])])]
  /\ fs (__init__ refresh_images_run (boot cached)).2 = cached.
Proof. repeat split; reflexivity. Qed.



End RefreshPolicy.

(* ===================================================================== *)
(** ** Footprints of the methods *)
(* ===================================================================== *)

Section Footprints.

Lemma fetched_app (t u : list event) :
  fetched (t ++ u) = fetched t || fetched u.
Proof. apply existsb_app. Qed.

Lemma saved_app (t u : list event) : saved (t ++ u) = saved t || saved u.
Proof. apply existsb_app. Qed.

Lemma Silent_Tracks {A} (m : M A) : Silent m -> Tracks m.
Proof.
  intros H st. destruct (H st) as (Hfs & Hcr & evs & Ht & Hf & Hs).
  split; [exact Hfs|]. exists evs. repeat split; auto. congruence.
Qed.

Lemma Silent_ret {A} (a : A) : Silent (mret a).
Proof.
  intros st. repeat split. exists []. by rewrite app_nil_r.
Qed.

Lemma Silent_lift {A} (r : result A) : Silent (lift r).
Proof.
  intros st. repeat split. exists []. by rewrite app_nil_r.
Qed.

Lemma Silent_gets {A} (f : state -> A) : Silent (gets f).
Proof.
  intros st. repeat split. exists []. by rewrite app_nil_r.
Qed.

Lemma Silent_modify (f : state -> state) :
  (forall st, silent st (Ok tt, f st)) -> Silent (modify f).
Proof. intros H st. apply H. Qed.

Lemma Silent_bind {A B} (m : M A) (k : A -> M B) :
  Silent m -> (forall a, Silent (k a)) -> Silent (m ≫= k).
Proof.
  intros Hm Hk st. rewrite bind_run.
  destruct (Hm st) as (Hfs & Hcr & evs & Ht & Hf & Hs).
  destruct (m st) as [[a|x|c] st1]; simpl in *;
    try (repeat split; auto; exists evs; by auto).
  destruct (Hk a st1) as (Hfs' & Hcr' & evs' & Ht' & Hf' & Hs').
  split; [congruence|]. split; [congruence|].
  exists (evs ++ evs'). rewrite Ht', Ht, app_assoc, fetched_app, saved_app.
  rewrite Hf, Hs, Hf', Hs'. auto.
Qed.

Lemma Tracks_bind {A B} (m : M A) (k : A -> M B) :
  Tracks m -> (forall a, Tracks (k a)) -> Tracks (m ≫= k).
Proof.
  intros Hm Hk st. rewrite bind_run.
  destruct (Hm st) as (Hfs & evs & Ht & Hs & Hno & Hyes).
  destruct (m st) as [[a|x|c] st1]; simpl in *;
    try (split; [exact Hfs|]; exists evs; repeat split; auto; by intros).
  destruct (Hk a st1) as (Hfs' & evs' & Ht' & Hs' & Hno' & Hyes').
  split; [congruence|].
  exists (evs ++ evs'). rewrite Ht', Ht, app_assoc, fetched_app, saved_app.
  rewrite Hs, Hs'. repeat split; auto.
  - intros [H1 H2]%orb_false_elim. rewrite Hno', Hno; auto.
  - intros H Hok. destruct (fetched evs') eqn:E; [auto|].
    rewrite Hno' by reflexivity. destruct (fetched evs) eqn:F; [auto|].
    discriminate.
Qed.

Lemma Silent_when (b : bool) (m : M unit) : Silent m -> Silent (when b m).
Proof. destruct b; [auto|]. intros _. apply Silent_ret. Qed.

Lemma Tracks_when (b : bool) (m : M unit) : Tracks m -> Tracks (when b m).
Proof.
  destruct b; [auto|]. intros _. apply Silent_Tracks, Silent_ret.
Qed.

Lemma silent_same (st st' : state) (ev : list event) :
  fs st' = fs st -> cache_refreshed st' = cache_refreshed st ->
  trace st' = trace st ++ ev -> fetched ev = false -> saved ev = false ->
  silent st (Ok tt, st').
Proof. intros. repeat split; auto. exists ev. auto. Qed.

Lemma Silent_set_data (v : pyval) : Silent (modify (set_data v)).
Proof.
  apply Silent_modify. intros st.
  apply (silent_same _ _ []); auto. simpl. by rewrite app_nil_r.
Qed.

Lemma Silent_set_inventory (v : pyval) : Silent (modify (set_inventory v)).
Proof.
  apply Silent_modify. intros st.
  apply (silent_same _ _ []); auto. simpl. by rewrite app_nil_r.
Qed.

Lemma Silent_print (o : output) : Silent (modify (print o)).
Proof.
  apply Silent_modify. intros st.
  apply (silent_same _ _ []); auto. simpl. by rewrite app_nil_r.
Qed.

Lemma Silent_complain (s : string) : Silent (modify (complain s)).
Proof.
  apply Silent_modify. intros st.
  apply (silent_same _ _ []); auto. simpl. by rewrite app_nil_r.
Qed.

Lemma Silent_log (ev : event) :
  is_fetch ev = false -> is_write ev = false -> Silent (modify (log ev)).
Proof.
  intros Hf Hw. apply Silent_modify. intros st.
  apply (silent_same _ _ [ev]); auto; simpl; by rewrite ?Hf, ?Hw.
Qed.

End Footprints.

Create HintDb footprint.

#[local] Hint Resolve Silent_ret Silent_lift Silent_gets Silent_set_data
  Silent_set_inventory Silent_print Silent_complain Silent_log Silent_when
  Tracks_when : footprint.

Ltac footprint :=
  repeat first
    [ apply Silent_when
    | apply Tracks_when
    | apply Silent_bind; [|intros ?]
    | apply Tracks_bind; [|intros ?]
    | progress eauto with footprint
    | apply Silent_Tracks ].

Section Methods.

Lemma Silent_load_from_cache (e : env) : Silent (load_from_cache e).
Proof. unfold load_from_cache. footprint. Qed.

Lemma Silent_view (name : string) : Silent (view name).
Proof. unfold view. footprint. Qed.

Lemma Silent_build_inventory (e : env) : Silent (build_inventory e).
Proof.
  intros st. unfold build_inventory.
  destruct (fill_inventory _ _) as [r inv].
  repeat split. exists []. by rewrite app_nil_r.
Qed.

Lemma Silent_load_cloudserver_variables_for_host (e : env) :
  Silent (load_cloudserver_variables_for_host e).
Proof.
  unfold load_cloudserver_variables_for_host.
  apply Silent_bind; [footprint|]. intros host.
  apply Silent_bind; [footprint|]. intros _.
  apply Silent_bind; [footprint|]. intros [| | | | |d]; footprint.
Qed.

Lemma Tracks_fetch (k : kind) (name : string) (call : result pyval) :
  Tracks (fetch k name call).
Proof.
  intros st. unfold fetch. run.
  split.
  - destruct call as [v| |]; [|reflexivity..]. run.
    destruct (data st); reflexivity.
  - exists [Fetch k]. 
    destruct call as [v| |]; [|repeat split; by auto..]. run.
    destruct (data st); repeat split; by auto.
Qed.

Lemma Tracks_load_from_atlantic_net (e : env) (resource : option string) :
  Tracks (load_from_atlantic_net e resource).
Proof.
  unfold load_from_atlantic_net.
  destruct (arg_force_cache (args e)); [footprint|].
  apply Tracks_bind; [footprint|]. intros valid.
  destruct (valid && _); [footprint|]. cbv zeta.
  repeat first [ apply Tracks_fetch | apply Tracks_when
               | apply Tracks_bind; [|intros ?] ].
Qed.

Lemma Tracks_pick (e : env) : Tracks (pick e).
Proof.
  unfold pick.
  repeat match goal with
         | |- Tracks (if ?b then _ else _) => destruct b
         end;
    repeat first
      [ apply Tracks_load_from_atlantic_net
      | apply Silent_Tracks;
        first [ apply Silent_view | apply Silent_build_inventory
              | apply Silent_load_cloudserver_variables_for_host
              | apply Silent_gets ]
      | apply Tracks_bind; [|intros ?] ].
Qed.

End Methods.

(* ===================================================================== *)
(** ** Main execution path *)
(* ===================================================================== *)

Section MainPath.

Import Sample.

(** [read_environment] assigns [api_token] only. *)
Lemma read_environment_keeps_keys (vars : gmap string string) (s : settings) :
  public_key (read_environment vars s) = public_key s
  /\ private_key (read_environment vars s) = private_key s.
Proof.
  unfold read_environment.
  destruct (getenv vars "ANET_PUBLIC_KEY"), (getenv vars "ANET_PRIVATE_KEY");
    split; reflexivity.
Qed.

(** C3 fails on the code: with both environment variables set, no key in
    the INI file and none on the command line, configuration leaves
    [public_key] and [private_key] unassigned (the values went to
    [api_token]) and the run writes the missing-credentials message and
    exits with status -1. *)
Theorem environment_credentials_ignored :
  getenv (environ from_environment) "ANET_PUBLIC_KEY" = Some "PUB"
  /\ getenv (environ from_environment) "ANET_PRIVATE_KEY" = Some "PRIV"
  /\ (configure (config from_environment) (environ from_environment)
                (argv from_environment)).1
     = Settings None None (Some "PRIV") "." 0 (PDict ∅)
  /\ (__init__ from_environment (boot ∅)).1 = Exit (-1)
  /\ stderr (__init__ from_environment (boot ∅)).2 = [missing_credentials].
Proof. repeat split; reflexivity. Qed.

(** The first phase of the cache management: the flag is cleared, the
    files are not touched, no listing call is made. *)
Lemma manage_cache_footprint (e : env) (st : state) :
  fs (manage_cache e st).2 = fs st
  /\ cache_refreshed (manage_cache e st).2 = false
  /\ exists evs, trace (manage_cache e st).2 = trace st ++ evs
                 /\ fetched evs = false /\ saved evs = false.
Proof.
  unfold manage_cache. rewrite bind_modify.
  assert (Silent (when (bound_method (is_cache_valid e))
            (load_from_cache e ;;
             d ← gets data ;
             n ← lift (len d) ;
             when (Nat.eqb n 0)
               (when (arg_force_cache (args e))
                  (modify (complain cache_empty_forced) ;; lift (Exit (-1)))))))
    as H.
  { apply Silent_when. apply Silent_bind; [apply Silent_load_from_cache|].
    intros _. footprint. }
  exact (H (set_cache_refreshed false st)).
Qed.

(** C10: once credentials are resolved and [--env] is not given, the run
    starts by reading the cache file; when the file holds a snapshot, its
    [data] and [inventory] are in the state before the view is picked,
    whatever the age of the file and the configured max age (the check at
    that point names [is_cache_valid] without calling it). *)
Theorem startup_loads_cache_at_any_age (i : invocation)
    (files : gmap string file) (s : settings) (a : cli) (pub priv : string)
    (f : file) (j : json) (snap : dict) (d inv : pyval) :
  configure (config i) (environ i) (argv i) = (s, a) ->
  public_key s = Some pub ->
  private_key s = Some priv ->
  arg_env a = false ->
  files !! cache_filename s = Some f ->
  readable f = true ->
  body f = Doc j ->
  loads j = PDict snap ->
  snap !! KStr "data" = Some d ->
  snap !! KStr "inventory" = Some inv ->
  let e := Env s a (service i) (started i) (may_write i) in
  let st0 := set_inventory (PDict ∅) (set_data (PDict ∅) (boot files)) in
  data (manage_cache e st0).2 = d
  /\ inventory (manage_cache e st0).2 = inv
  /\ (exists evs, trace (manage_cache e st0).2
                  = CacheRead (cache_filename s) :: evs)
  /\ __init__ i (boot files)
     = (manage_cache e ;; json_data ← pick e ; finish e json_data) st0.
Proof.
  intros Hc Hpub Hpriv Henv Hf Hr Hb Hj Hd Hi e st0.
  assert (__init__ i (boot files)
          = (manage_cache e ;; json_data ← pick e ; finish e json_data) st0)
    as Hinit.
  { unfold __init__. rewrite !bind_modify, Hc, Hpub, Hpriv, Henv.
    reflexivity. }
  assert (load_from_cache e (set_cache_refreshed false st0)
          = (Ok tt, set_inventory inv (set_data d
               (log (CacheRead (cache_filename s))
                  (set_cache_refreshed false st0))))) as Hload.
  { unfold load_from_cache. run. unfold read_cache. cbn [fs log conf e].
    change (fs (set_cache_refreshed false st0)) with files.
    rewrite Hf, Hr, Hb, Hj. cbn [except_IOError]. run.
    rewrite Hd. run. rewrite Hi. reflexivity. }
  cut (data (manage_cache e st0).2 = d
       /\ inventory (manage_cache e st0).2 = inv
       /\ exists evs, trace (manage_cache e st0).2
                      = CacheRead (cache_filename s) :: evs).
  { intros (H1 & H2 & H3). auto. }
  unfold manage_cache. rewrite bind_modify.
  unfold bound_method. cbn [when]. rewrite bind_run, Hload.
  rewrite bind_gets, bind_lift.
  cbn [data set_inventory set_data].
  destruct (len d) as [n| |]; cbn [snd];
    [|repeat split; eauto..].
  destruct (Nat.eqb n 0), (arg_force_cache (args e)); cbn [when];
    repeat split; eauto.
Qed.

(** A run on [from_ini]: the cache was written at time 100, the max age is
    60 seconds and the run starts at time 500. *)
Lemma startup_loads_cache_at_any_age_witness :
  is_cache_valid
    (Env (keys_set 60) (Cli true None false false false false false false
                            None None false false false None None)
         provider 500 true)
    (set_inventory (PDict ∅) (set_data (PDict ∅) (boot cached))) = false
  /\ data (manage_cache
             (Env (keys_set 60)
                  (Cli true None false false false false false false
                       None None false false false None None)
                  provider 500 true)
             (set_inventory (PDict ∅) (set_data (PDict ∅) (boot cached)))).2
     = old_data.
Proof.
  split; [reflexivity|].
  refine (proj1 (startup_loads_cache_at_any_age from_ini cached
            (keys_set 60)
            (Cli true None false false false false false false
                 None None false false false None None)
            "PUB" "PRIV" (File 100 true (Doc old_snapshot)) old_snapshot
            (<[KStr "data" := old_data]> (<[KStr "inventory" := PDict ∅]> ∅))
            old_data (PDict ∅) _ _ _ _ _ _ _ _ _ _)); reflexivity.
Defined.

End MainPath.

(* ===================================================================== *)
(** ** Persistence of the snapshot *)
(* ===================================================================== *)

Section Persistence.

Import Sample.

(** The end of the run, case by case. *)
Lemma finish_run (e : env) (json_data : pyval) (st : state) :
  finish e json_data st
  = let out := Dump (arg_pretty (args e)) (dumps (arg_pretty (args e)) json_data) in
    let fn := cache_filename (conf e) in
    if cache_refreshed st then
      if cache_writable e then
        (Ok tt,
         print out
           (set_fs (<[fn := written e (fs st !! fn) (dumps true (snapshot st))]>
                      (fs st))
              (log (CacheWrite fn) st)))
      else (Raise IOError, log (CacheWrite fn) st)
    else (Ok tt, print out st).
Proof.
  unfold finish. rewrite bind_gets.
  destruct (cache_refreshed st); cbn [when]; [|reflexivity].
  unfold write_to_cache. run.
  destruct (cache_writable e); reflexivity.
Qed.






End Persistence.

(* ===================================================================== *)
(** ** Further properties of the refresh policy *)
(* ===================================================================== *)

Section RefreshPolicyMore.

Import Sample.









End RefreshPolicyMore.

(* ===================================================================== *)
(** ** Configuration *)
(* ===================================================================== *)

Section Configuration.

Import Sample.

(** The attributes after each of the three readers. *)
Lemma read_settings_fields (config : ini) (s : settings) :
  public_key (read_settings config s)
  = from_option Some (public_key s) (ini_public_key config)
  /\ private_key (read_settings config s)
     = from_option Some (private_key s) (ini_private_key config)
  /\ cache_path (read_settings config s)
     = default (cache_path s) (ini_cache_path config)
  /\ cache_max_age (read_settings config s)
     = default (cache_max_age s) (ini_cache_max_age config)
  /\ group_variables (read_settings config s)
     = default (group_variables s) (ini_group_variables config).
Proof.
  unfold read_settings.
  destruct (ini_public_key config), (ini_private_key config),
           (ini_cache_path config), (ini_cache_max_age config),
           (ini_group_variables config); repeat split.
Qed.

Lemma read_environment_fields (vars : gmap string string) (s : settings) :
  cache_path (read_environment vars s) = cache_path s
  /\ cache_max_age (read_environment vars s) = cache_max_age s
  /\ group_variables (read_environment vars s) = group_variables s.
Proof.
  unfold read_environment.
  destruct (getenv vars "ANET_PUBLIC_KEY"), (getenv vars "ANET_PRIVATE_KEY");
    repeat split.
Qed.

Lemma read_cli_args_fields (argv : cli) (s : settings) :
  public_key (read_cli_args argv s).1
  = from_option Some (public_key s) (given (arg_public_key argv))
  /\ private_key (read_cli_args argv s).1
     = from_option Some (private_key s) (given (arg_private_key argv))
  /\ cache_path (read_cli_args argv s).1 = cache_path s
  /\ cache_max_age (read_cli_args argv s).1 = cache_max_age s
  /\ group_variables (read_cli_args argv s).1 = group_variables s.
Proof.
  unfold read_cli_args.
  destruct (given (arg_public_key argv)), (given (arg_private_key argv));
    repeat split.
Qed.

(** X5: the public and the private key come from the command line when
    given there (and not empty), otherwise from the INI file; the
    environment has no part in either. *)
Theorem credentials_from_cli_or_ini (config : ini)
    (vars : gmap string string) (argv : cli) :
  public_key (configure config vars argv).1
  = match given (arg_public_key argv) with
    | Some v => Some v
    | None => ini_public_key config
    end
  /\ private_key (configure config vars argv).1
     = match given (arg_private_key argv) with
       | Some v => Some v
       | None => ini_private_key config
       end.
Proof.
  unfold configure.
  destruct (read_cli_args_fields argv
              (read_environment vars (read_settings config defaults)))
    as (-> & -> & _).
  destruct (read_environment_keeps_keys vars (read_settings config defaults))
    as [-> ->].
  destruct (read_settings_fields config defaults) as (-> & -> & _).
  destruct (given (arg_public_key argv)), (given (arg_private_key argv)),
           (ini_public_key config), (ini_private_key config);
    split; reflexivity.
Qed.

(** X6: the cache directory, the max age and the group variables come
    from the INI file or keep their defaults (".", 0, no variables): the
    options [--cache-path] and [--cache-max_age] and the environment do
    not change them. *)
Theorem cache_settings_from_ini_only (config : ini)
    (vars : gmap string string) (argv : cli) :
  cache_path (configure config vars argv).1
  = default "." (ini_cache_path config)
  /\ cache_max_age (configure config vars argv).1
     = default 0%Z (ini_cache_max_age config)
  /\ group_variables (configure config vars argv).1
     = default (PDict ∅) (ini_group_variables config).
Proof.
  unfold configure.
  destruct (read_cli_args_fields argv
              (read_environment vars (read_settings config defaults)))
    as (_ & _ & -> & -> & ->).
  destruct (read_environment_fields vars (read_settings config defaults))
    as (-> & -> & ->).
  destruct (read_settings_fields config defaults) as (_ & _ & -> & -> & ->).
  repeat split.
Qed.

(** X7: [--list] is the default command: it is switched on exactly when
    none of [--cloudservers], [--images], [--plans], [--ssh-keys],
    [--all] and a non-empty [--host] is given; otherwise the namespace is
    the parsed one.  No other option is touched. *)
Theorem list_is_the_default_command (argv : cli) (s : settings) :
  let a := (read_cli_args argv s).2 in
  (arg_cloudservers argv || arg_images argv || arg_plans argv
   || arg_ssh_keys argv || arg_all argv
   || bool_decide (is_Some (given (arg_host argv))) = true -> a = argv)
  /\ (arg_cloudservers argv || arg_images argv || arg_plans argv
      || arg_ssh_keys argv || arg_all argv
      || bool_decide (is_Some (given (arg_host argv))) = false ->
      arg_list a = true)
  /\ arg_force_cache a = arg_force_cache argv
  /\ arg_refresh_cache a = arg_refresh_cache argv
  /\ arg_env a = arg_env argv
  /\ arg_pretty a = arg_pretty argv
  /\ arg_host a = arg_host argv.
Proof.
  unfold read_cli_args. cbn [snd].
  destruct (arg_cloudservers argv), (arg_images argv), (arg_plans argv),
           (arg_ssh_keys argv), (arg_all argv),
           (bool_decide (is_Some (given (arg_host argv))));
    cbn; repeat split; auto; discriminate.
Qed.

Lemma list_is_the_default_command_witness :
  arg_list (read_cli_args no_args defaults).2 = true.
Proof.
  exact (proj1 (proj2 (list_is_the_default_command no_args defaults)) eq_refl).
Defined.

End Configuration.

(* ===================================================================== *)
(** ** Further properties of the main execution path *)
(* ===================================================================== *)

Section MainPathMore.

Import Sample.

(** The options [read_cli_args] leaves as parsed. *)
Lemma read_cli_args_keeps_options (argv : cli) (s : settings) :
  arg_force_cache (read_cli_args argv s).2 = arg_force_cache argv
  /\ arg_env (read_cli_args argv s).2 = arg_env argv.
Proof.
  unfold read_cli_args. cbn [snd]. destruct (_ && _); split; reflexivity.
Qed.

(** X8: when the public or the private key is still unset after the three
    sources, the run writes the missing-credentials message and exits
    with status -1 whatever the command line says: the cache file is not
    read, no API call is made and nothing is printed. *)
Theorem missing_credentials_exit (i : invocation) (files : gmap string file) :
  public_key (configure (config i) (environ i) (argv i)).1 = None
  \/ private_key (configure (config i) (environ i) (argv i)).1 = None ->
  __init__ i (boot files)
  = (Exit (-1), complain missing_credentials (fresh files)).
Proof.
  intros H. unfold __init__. rewrite !bind_modify.
  destruct (configure (config i) (environ i) (argv i)) as [s a].
  cbn [fst] in H.
  destruct H as [-> | ->]; [|destruct (public_key s)]; reflexivity.
Qed.

Lemma missing_credentials_exit_witness :
  __init__ from_environment (boot cached)
  = (Exit (-1), complain missing_credentials (fresh cached)).
Proof.
  apply (missing_credentials_exit from_environment cached).
  left. reflexivity.
Defined.

(** X9: with both keys resolved, [--env] prints the two assignments and
    exits with status 0 before the cache management: the cache file is
    not read and no API call is made, whatever other command was given. *)
Theorem env_prints_credentials (i : invocation) (files : gmap string file)
    (pub priv : string) :
  public_key (configure (config i) (environ i) (argv i)).1 = Some pub ->
  private_key (configure (config i) (environ i) (argv i)).1 = Some priv ->
  arg_env (argv i) = true ->
  __init__ i (boot files)
  = (Exit 0,
     print (Line ("ANET_PRIVATE_KEY=" ++ priv)%string)
       (print (Line ("ANET_PUBLIC_KEY=" ++ pub)%string) (fresh files))).
Proof.
  intros Hpub Hpriv Henv. unfold __init__. rewrite !bind_modify.
  pose proof (proj2 (read_cli_args_keeps_options (argv i)
    (read_environment (environ i) (read_settings (config i) defaults))))
    as Ha.
  fold (configure (config i) (environ i) (argv i)) in Ha.
  destruct (configure (config i) (environ i) (argv i)) as [s a].
  cbn [fst snd] in *. rewrite Hpub, Hpriv, Ha, Henv. reflexivity.
Qed.

Lemma env_prints_credentials_witness :
  (__init__ (Invocation (Ini (Some "PUB") (Some "PRIV") None None None) ∅
               (Cli false None true false false false false false None None
                    false false true None None)
               provider 0 true) (boot cached)).1
  = Exit 0.
Proof.
  exact (f_equal fst (env_prints_credentials
    (Invocation (Ini (Some "PUB") (Some "PRIV") None None None) ∅
       (Cli false None true false false false false false None None
            false false true None None)
       provider 0 true) cached "PUB" "PRIV" eq_refl eq_refl eq_refl)).
Defined.

(** X10: with [--force-cache] and a cache file that is missing or cannot
    be read, the run (keys resolved, no [--env]) writes the
    cache-is-empty message and exits with status -1; all it did to the
    outside is the attempt to read the file: no API call, no output. *)
Theorem force_cache_on_empty_cache_exits (i : invocation)
    (files : gmap string file) (s : settings) (a : cli) (pub priv : string) :
  configure (config i) (environ i) (argv i) = (s, a) ->
  public_key s = Some pub ->
  private_key s = Some priv ->
  arg_env (argv i) = false ->
  arg_force_cache (argv i) = true ->
  (files !! cache_filename s = None
   \/ exists f, files !! cache_filename s = Some f /\ readable f = false) ->
  let e := Env s a (service i) (started i) (may_write i) in
  __init__ i (boot files)
  = (Exit (-1),
     complain cache_empty_forced
       (installs_empty e (set_cache_refreshed false (fresh files)))).
Proof.
  intros Hc Hpub Hpriv Henv Hforce Hfile e.
  destruct (read_cli_args_keeps_options (argv i)
    (read_environment (environ i) (read_settings (config i) defaults)))
    as [Hf He].
  fold (configure (config i) (environ i) (argv i)) in Hf, He.
  rewrite Hc in Hf, He. cbn [snd] in Hf, He.
  unfold __init__. rewrite !bind_modify, Hc, Hpub, Hpriv, He, Henv.
  fold e. fold (fresh files).
  assert (load_from_cache e (set_cache_refreshed false (fresh files))
          = (Ok tt, installs_empty e (set_cache_refreshed false (fresh files))))
    as Hload.
  { unfold load_from_cache, installs_empty. run. unfold read_cache.
    cbn [fs log conf e].
    change (fs (set_cache_refreshed false (fresh files))) with files.
    destruct Hfile as [-> | (f & -> & ->)]; reflexivity. }
  rewrite bind_run. unfold manage_cache. rewrite bind_modify.
  unfold bound_method. cbn [when]. rewrite bind_run, Hload.
  rewrite bind_gets, bind_lift. cbn [args e]. rewrite Hf, Hforce.
  reflexivity.
Qed.

Lemma force_cache_on_empty_cache_exits_witness :
  (__init__ (Invocation (Ini (Some "PUB") (Some "PRIV") None None None) ∅
               (Cli false None true false false false false false None None
                    true false false None None)
               provider 0 true) (boot ∅)).1
  = Exit (-1).
Proof.
  refine (f_equal fst (force_cache_on_empty_cache_exits
    (Invocation (Ini (Some "PUB") (Some "PRIV") None None None) ∅
       (Cli false None true false false false false false None None
            true false false None None)
       provider 0 true) ∅ (keys_set 0)
    (Cli false None true false false false false false None None
         true false false None None)
    "PUB" "PRIV" eq_refl eq_refl eq_refl eq_refl eq_refl _)).
  left. reflexivity.
Defined.

Lemma Silent_load_forced (e : env) (resource : option string) :
  arg_force_cache (args e) = true ->
  Silent (load_from_atlantic_net e resource).
Proof.
  intros H. unfold load_from_atlantic_net. rewrite H. apply Silent_ret.
Qed.

Lemma Silent_pick_forced (e : env) :
  arg_force_cache (args e) = true -> Silent (pick e).
Proof.
  intros H. unfold pick.
  repeat match goal with
         | |- Silent (if ?b then _ else _) => destruct b
         end;
    repeat first
      [ apply (Silent_load_forced _ _ H)
      | apply Silent_view | apply Silent_build_inventory
      | apply Silent_load_cloudserver_variables_for_host
      | apply Silent_gets
      | apply Silent_bind; [|intros ?] ].
Qed.

(** The run from the cache management on, when [pick] is silent. *)
Lemma silent_serve (e : env) (st0 : state) :
  Silent (pick e) ->
  fetched (trace st0) = false -> saved (trace st0) = false ->
  let out := (manage_cache e ;; json_data ← pick e ; finish e json_data) st0 in
  fetched (trace out.2) = false /\ saved (trace out.2) = false
  /\ fs out.2 = fs st0.
Proof.
  intros Hpick Hf0 Hs0 out. subst out. rewrite bind_run.
  destruct (manage_cache_footprint e st0)
    as (Hfs1 & Hcr1 & ev1 & Ht1 & Hf1 & Hs1).
  destruct (manage_cache e st0) as [[[]|x|c] st1]; cbn [fst snd] in *;
    try (rewrite Ht1, fetched_app, saved_app, Hf0, Hs0, Hf1, Hs1; by auto).
  rewrite bind_run.
  destruct (Hpick st1) as (Hfs2 & Hcr2 & ev2 & Ht2 & Hf2 & Hs2).
  destruct (pick e st1) as [[jd|x|c] st2]; cbn [fst snd] in *;
    try (rewrite Ht2, Ht1, !fetched_app, !saved_app, Hf0, Hs0, Hf1, Hs1,
           Hf2, Hs2; split; [reflexivity|]; split; [reflexivity|];
         rewrite Hfs2; exact Hfs1).
  rewrite finish_run. cbv zeta. rewrite Hcr2, Hcr1.
  cbn [snd trace fs print].
  rewrite Ht2, Ht1, !fetched_app, !saved_app, Hf0, Hs0, Hf1, Hs1, Hf2, Hs2.
  split; [reflexivity|]. split; [reflexivity|].
  rewrite Hfs2. exact Hfs1.
Qed.

(** X11: a run with [--force-cache] makes no listing call at all, for
    every command, and never opens the cache file for writing: the files
    are the ones it found. *)
Theorem force_cache_run_is_offline (i : invocation)
    (files : gmap string file) :
  arg_force_cache (argv i) = true ->
  let out := __init__ i (boot files) in
  fetched (trace out.2) = false /\ saved (trace out.2) = false
  /\ fs out.2 = files.
Proof.
  intros Hforce out. subst out.
  destruct (read_cli_args_keeps_options (argv i)
    (read_environment (environ i) (read_settings (config i) defaults)))
    as [Hf _].
  fold (configure (config i) (environ i) (argv i)) in Hf.
  unfold __init__. rewrite !bind_modify.
  destruct (configure (config i) (environ i) (argv i)) as [s a].
  cbn [snd] in Hf.
  destruct (public_key s) as [pub|], (private_key s) as [priv|];
    try (repeat split; reflexivity).
  destruct (arg_env a); [repeat split; reflexivity|].
  apply (silent_serve (Env s a (service i) (started i) (may_write i))
           (fresh files)); [|reflexivity..].
  apply Silent_pick_forced. cbn [args]. congruence.
Qed.

Lemma force_cache_run_is_offline_witness :
  fetched (trace (__init__
    (Invocation (Ini (Some "PUB") (Some "PRIV") None None None) ∅
       (Cli false None true false false false false false None None
            true false false None None)
       provider 500 true) (boot cached)).2) = false.
Proof.
  exact (proj1 (force_cache_run_is_offline
    (Invocation (Ini (Some "PUB") (Some "PRIV") None None None) ∅
       (Cli false None true false false false false false None None
            true false false None None)
       provider 500 true) cached eq_refl)).
Defined.

(** X12: the [--host] command (no other command given) makes no listing
    call and never opens the cache file for writing, force-cache or
    not: the files are the ones the run found. *)
Theorem host_run_keeps_cache (i : invocation) (files : gmap string file)
    (h : string) :
  arg_cloudservers (argv i) = false -> arg_images (argv i) = false ->
  arg_plans (argv i) = false -> arg_ssh_keys (argv i) = false ->
  arg_all (argv i) = false ->
  given (arg_host (argv i)) = Some h ->
  let out := __init__ i (boot files) in
  fetched (trace out.2) = false /\ saved (trace out.2) = false
  /\ fs out.2 = files.
Proof.
  intros Hc Him Hp Hk Hall Hh out. subst out.
  assert ((configure (config i) (environ i) (argv i)).2 = argv i) as Ha.
  { unfold configure, read_cli_args. cbn [snd].
    rewrite Hh, (bool_decide_eq_true_2 _ (mk_is_Some _ _ eq_refl)).
    rewrite !andb_false_r. reflexivity. }
  unfold __init__. rewrite !bind_modify.
  destruct (configure (config i) (environ i) (argv i)) as [s a].
  cbn [snd] in Ha. subst a.
  destruct (public_key s) as [pub|], (private_key s) as [priv|];
    try (repeat split; reflexivity).
  destruct (arg_env (argv i)); [repeat split; reflexivity|].
  apply (silent_serve (Env s (argv i) (service i) (started i) (may_write i))
           (fresh files)); [|reflexivity..].
  unfold pick. cbn [args]. rewrite Hc, Him, Hp, Hk, Hall, Hh.
  rewrite (bool_decide_eq_true_2 _ (mk_is_Some _ _ eq_refl)).
  apply Silent_load_cloudserver_variables_for_host.
Qed.

Lemma host_run_keeps_cache_witness :
  fs (__init__
    (Invocation (Ini (Some "PUB") (Some "PRIV") None None None) ∅
       (Cli false (Some "42") false false false false false false None None
            false false false None None)
       provider 500 true) (boot cached)).2 = cached.
Proof.
  exact (proj2 (proj2 (host_run_keeps_cache
    (Invocation (Ini (Some "PUB") (Some "PRIV") None None None) ∅
       (Cli false (Some "42") false false false false false false None None
            false false false None None)
       provider 500 true) cached "42"
    eq_refl eq_refl eq_refl eq_refl eq_refl eq_refl))).
Defined.

End MainPathMore.

(* ===================================================================== *)
(** ** Further properties of the cache store *)
(* ===================================================================== *)

Section CacheStoreMore.

Import Sample.



(** The run from the cache management on, when the cache file cannot be
    written. *)
Lemma unwritable_serve (e : env) (st0 : state) :
  cache_writable e = false ->
  fetched (trace st0) = false ->
  let out := (manage_cache e ;; json_data ← pick e ; finish e json_data) st0 in
  fs out.2 = fs st0
  /\ (fetched (trace out.2) = true -> is_ok out.1 = false).
Proof.
  intros Hw Hf0 out. subst out. rewrite bind_run.
  destruct (manage_cache_footprint e st0)
    as (Hfs1 & Hcr1 & ev1 & Ht1 & Hf1 & Hs1).
  destruct (manage_cache e st0) as [[[]|x|c] st1]; cbn [fst snd] in *;
    try (split; [exact Hfs1 | reflexivity]).
  rewrite bind_run.
  destruct (Tracks_pick e st1) as (Hfs2 & ev2 & Ht2 & Hs2 & Hno & Hyes).
  destruct (pick e st1) as [[jd|x|c] st2]; cbn [fst snd] in *;
    try (split; [rewrite Hfs2; exact Hfs1 | reflexivity]).
  rewrite finish_run. cbv zeta. rewrite Hw.
  destruct (cache_refreshed st2) eqn:Hcr2; cbn [fst snd fs trace print log].
  - split; [rewrite Hfs2; exact Hfs1 | reflexivity].
  - split; [rewrite Hfs2; exact Hfs1|].
    rewrite Ht2, Ht1, !fetched_app, Hf0, Hf1. cbn [orb]. intros Hev.
    specialize (Hyes Hev eq_refl). congruence.
Qed.

(** X14: when the cache file cannot be opened for writing, a run that
    made a listing call does not return normally (the write raises
    [IOError] once the view is picked), and in every case the files are
    the ones the run found. *)
Theorem unwritable_cache_is_fatal (i : invocation)
    (files : gmap string file) :
  may_write i = false ->
  let out := __init__ i (boot files) in
  fs out.2 = files
  /\ (fetched (trace out.2) = true -> is_ok out.1 = false).
Proof.
  intros Hw out. subst out. unfold __init__. rewrite !bind_modify.
  destruct (configure (config i) (environ i) (argv i)) as [s a].
  destruct (public_key s) as [pub|], (private_key s) as [priv|];
    try (split; reflexivity).
  destruct (arg_env a); [split; reflexivity|].
  exact (unwritable_serve (Env s a (service i) (started i) (may_write i))
           (fresh files) Hw eq_refl).
Qed.

Lemma unwritable_cache_is_fatal_witness :
  fetched (trace (__init__
    (Invocation (Ini (Some "PUB") (Some "PRIV") None None None) ∅
       no_args provider 500 false) (boot ∅)).2) = true
  /\ is_ok (__init__
        (Invocation (Ini (Some "PUB") (Some "PRIV") None None None) ∅
           no_args provider 500 false) (boot ∅)).1 = false.
Proof.
  split; [reflexivity|].
  exact (proj2 (unwritable_cache_is_fatal
    (Invocation (Ini (Some "PUB") (Some "PRIV") None None None) ∅
       no_args provider 500 false) ∅ eq_refl) eq_refl).
Defined.

(** X29: a readable cache file whose contents are not JSON stops every
    run that reaches the cache management: the run ends with
    [ValueError] right after the read, before the API client is made,
    with nothing printed and the files as found. *)
Theorem garbled_cache_stops_every_run (i : invocation)
    (files : gmap string file) (s : settings) (a : cli) (pub priv : string)
    (f : file) :
  configure (config i) (environ i) (argv i) = (s, a) ->
  public_key s = Some pub ->
  private_key s = Some priv ->
  arg_env a = false ->
  files !! cache_filename s = Some f ->
  readable f = true ->
  body f = Garbled ->
  __init__ i (boot files)
  = (Raise ValueError,
     log (CacheRead (cache_filename s))
       (set_cache_refreshed false (fresh files))).
Proof.
  intros Hc Hpub Hpriv Henv Hf Hr Hb.
  unfold __init__. rewrite !bind_modify, Hc, Hpub, Hpriv, Henv.
  rewrite bind_run. unfold manage_cache. rewrite bind_modify.
  unfold bound_method. cbn [when]. rewrite bind_run.
  unfold load_from_cache. rewrite bind_modify, bind_gets.
  unfold read_cache. cbn [fs log conf set_cache_refreshed set_inventory
                          set_data boot].
  rewrite Hf, Hr, Hb. reflexivity.
Qed.

Lemma garbled_cache_stops_every_run_witness :
  (__init__ refresh_all_run (boot garbled)).1 = Raise ValueError.
Proof.
  exact (f_equal fst
    (garbled_cache_stops_every_run refresh_all_run garbled
       (Settings (Some "PUB") (Some "PRIV") None "." 60 (PDict ∅))
       (Cli false None true false false false false false None None
            false true false None None)
       "PUB" "PRIV" (File 100 true Garbled)
       eq_refl eq_refl eq_refl eq_refl eq_refl eq_refl eq_refl)).
Defined.

(** X26: a cache file that parses but is not a snapshot is fatal: a
    document that is not an object raises [TypeError], an object without
    [data] raises [KeyError], and an object with [data] but without
    [inventory] raises [KeyError] after [data] was replaced. *)
Theorem load_from_cache_wrong_shape (e : env) (st : state) (f : file)
    (j : json) :
  fs st !! cache_filename (conf e) = Some f ->
  readable f = true ->
  body f = Doc j ->
  let st1 := log (CacheRead (cache_filename (conf e))) st in
  ((forall snap, loads j <> PDict snap) ->
   load_from_cache e st = (Raise TypeError, st1))
  /\ (forall snap, loads j = PDict snap ->
        snap !! KStr "data" = None ->
        load_from_cache e st = (Raise KeyError, st1))
  /\ (forall snap d, loads j = PDict snap ->
        snap !! KStr "data" = Some d ->
        snap !! KStr "inventory" = None ->
        load_from_cache e st = (Raise KeyError, set_data d st1)).
Proof.
  intros Hf Hr Hb st1. subst st1.
  assert (read_cache e (log (CacheRead (cache_filename (conf e))) st)
          = Ok (loads j)) as Hread.
  { unfold read_cache. cbn [fs log]. by rewrite Hf, Hr, Hb. }
  unfold load_from_cache.
  rewrite bind_modify, bind_gets, Hread. cbn [except_IOError].
  rewrite bind_lift. split; [|split].
  - intros Hno. rewrite bind_lift.
    destruct (loads j) as [| | | | |snap]; try reflexivity.
    by destruct (Hno snap).
  - intros snap -> Hd. rewrite bind_lift. cbn [getitem]. by rewrite Hd.
  - intros snap d -> Hd Hi. rewrite bind_lift. cbn [getitem]. rewrite Hd.
    rewrite bind_modify, bind_lift. cbn [getitem]. by rewrite Hi.
Qed.

Lemma load_from_cache_wrong_shape_witness :
  load_from_cache listing
    (boot (<[cache_file := File 100 true (Doc (JArr []))]> ∅))
  = (Raise TypeError,
     log (CacheRead cache_file)
       (boot (<[cache_file := File 100 true (Doc (JArr []))]> ∅))).
Proof.
  refine (proj1 (load_from_cache_wrong_shape listing
    (boot (<[cache_file := File 100 true (Doc (JArr []))]> ∅))
    (File 100 true (Doc (JArr []))) (JArr []) eq_refl eq_refl eq_refl) _).
  intros snap. discriminate.
Defined.

End CacheStoreMore.

(* ===================================================================== *)
(** ** Single-host query *)
(* ===================================================================== *)

Section HostQuery.

Import Sample.

(** The loop over the items of the cloudserver, for string keys. *)
Lemma prefix_items (d : dict) :
  map_Forall (fun k _ => exists s, k = KStr s) d ->
  exists info,
    map_fold prefix_item (Ok ∅) d = Ok info
    /\ (forall s, info !! KStr ("anet_" ++ s)%string = d !! KStr s)
    /\ (forall k, is_Some (info !! k) ->
          exists s, k = KStr ("anet_" ++ s)%string).
Proof.
  apply (map_fold_weak_ind
    (fun r m => map_Forall (fun k _ => exists s, k = KStr s) m ->
       exists info, r = Ok info
         /\ (forall s, info !! KStr ("anet_" ++ s)%string = m !! KStr s)
         /\ (forall k, is_Some (info !! k) ->
               exists s, k = KStr ("anet_" ++ s)%string))).
  - intros _. exists ∅. split; [reflexivity|]. split.
    + intros s. by rewrite !lookup_empty.
    + intros k [x Hx]. by rewrite lookup_empty in Hx.
  - intros k x m r Hk IH Hall.
    apply map_Forall_insert in Hall as [[s0 ->] Hall]; [|exact Hk].
    destruct (IH Hall) as (info & -> & Hlook & Hkeys).
    exists (<[KStr ("anet_" ++ s0)%string := x]> info).
    split; [reflexivity|]. split.
    + intros s. destruct (decide (s = s0)) as [->|Hne].
      * by rewrite !lookup_insert_eq.
      * rewrite !lookup_insert_ne; [apply Hlook | congruence |].
        intros [= H]. apply Hne. symmetry. exact H.
    + intros k [y Hy].
      destruct (decide (k = KStr ("anet_" ++ s0)%string)) as [->|Hne];
        [eauto|].
      rewrite lookup_insert_ne in Hy by congruence. eauto.
Qed.

(** X15: for a host id that parses as the integer [n] and an upstream
    record with string keys, the host query makes the one call
    [show_cloudserver n] and returns [{"cloudserver": info}] where
    [info] holds every field of the record under its name prefixed with
    [anet_], and nothing else. *)
Theorem host_query_prefixes_every_field (e : env) (st : state) (h : string)
    (n : Z) (d : dict) :
  arg_host (args e) = Some h ->
  int h = Ok n ->
  show_cloudserver (manager e) n = Ok (PDict d) ->
  map_Forall (fun k _ => exists s, k = KStr s) d ->
  exists info,
    load_cloudserver_variables_for_host e st
    = (Ok (PDict (<[KStr "cloudserver" := PDict info]> ∅)),
       log (ShowServer n) st)
    /\ (forall s, info !! KStr ("anet_" ++ s)%string = d !! KStr s)
    /\ (forall k, is_Some (info !! k) ->
          exists s, k = KStr ("anet_" ++ s)%string).
Proof.
  intros Hh Hn Hshow Hkeys.
  destruct (prefix_items d Hkeys) as (info & Hfold & Hlook & Hk).
  exists info. split; [|split; assumption].
  unfold load_cloudserver_variables_for_host.
  rewrite Hh. change (default "" (Some h)) with h.
  rewrite Hn. run. rewrite Hshow. run.
  rewrite Hfold. run. reflexivity.
Qed.

Lemma host_query_prefixes_every_field_witness :
  exists info,
    load_cloudserver_variables_for_host
      (Env (keys_set 0)
           (Cli false (Some " 42 ") false false false false false false
                None None false false false None None)
           provider 0 true) loaded
    = (Ok (PDict (<[KStr "cloudserver" := PDict info]> ∅)),
       log (ShowServer 42) loaded)
    /\ info !! KStr "anet_vm_status" = Some (PStr "active").
Proof.
  destruct (host_query_prefixes_every_field
    (Env (keys_set 0)
         (Cli false (Some " 42 ") false false false false false false
              None None false false false None None)
         provider 0 true) loaded " 42 " 42
    (<[KStr "id" := PInt 1]>
    (<[KStr "name" := PStr "web1"]>
    (<[KStr "vm_ip_address" := address]>
    (<[KStr "vm_image" := PStr "img-1"]>
    (<[KStr "vm_image_display_name" := PStr "Ubuntu 20.04"]>
    (<[KStr "vm_plan_name" := PStr "small"]>
    (<[KStr "vm_status" := PStr "active"]> ∅)))))))
    eq_refl eq_refl eq_refl) as (info & Hrun & Hlook & _).
  - repeat first [ apply map_Forall_insert_2; [eexists; reflexivity|]
                 | apply map_Forall_empty ].
  - exists info. split; [exact Hrun|].
    etransitivity; [exact (Hlook "vm_status") | reflexivity].
Defined.

(** X16: a host id that is not an integer numeral raises [ValueError]
    before any call is made; an exception of the upstream lookup is the
    outcome of the query, after that one call. *)
Theorem host_query_failures (e : env) (st : state) (h : string) :
  arg_host (args e) = Some h ->
  (int h = Raise ValueError ->
   load_cloudserver_variables_for_host e st = (Raise ValueError, st))
  /\ (forall n x, int h = Ok n ->
        show_cloudserver (manager e) n = Raise x ->
        load_cloudserver_variables_for_host e st
        = (Raise x, log (ShowServer n) st)).
Proof.
  intros Hh. unfold load_cloudserver_variables_for_host.
  rewrite Hh. change (default "" (Some h)) with h. split.
  - intros ->. reflexivity.
  - intros n x -> Hx. run. rewrite Hx. reflexivity.
Qed.

Lemma host_query_failures_witness :
  load_cloudserver_variables_for_host
    (Env (keys_set 0)
         (Cli false (Some "web1") false false false false false false
              None None false false false None None)
         provider 0 true) loaded
  = (Raise ValueError, loaded).
Proof.
  exact (proj1 (host_query_failures
    (Env (keys_set 0)
         (Cli false (Some "web1") false false false false false false
              None None false false false None None)
         provider 0 true) loaded "web1" eq_refl) eq_refl).
Defined.

End HostQuery.

(* ===================================================================== *)
(** ** Further properties of the utilities *)
(* ===================================================================== *)

Section UtilitiesMore.

Lemma underscore_replaced : safe_char "_" = false.
Proof. reflexivity. Qed.

(** X17: sanitising is idempotent: a sanitised word is left as it is. *)
Theorem to_safe_idempotent (word : string) :
  to_safe (to_safe word) = to_safe word.
Proof.
  induction word as [|c w IH]; simpl; [reflexivity|]. rewrite IH.
  destruct (safe_char c) eqn:E; [rewrite E | rewrite underscore_replaced];
    reflexivity.
Qed.

(** X18: the sanitised word has the length of the word, and each of its
    characters is a letter, a digit, a hyphen, a dot or an underscore;
    sanitising a concatenation is concatenating the sanitised parts. *)
Theorem to_safe_shape (word rest : string) :
  String.length (to_safe word) = String.length word
  /\ Forall (fun c => safe_char c = true \/ c = "_"%char)
            (list_ascii_of_string (to_safe word))
  /\ to_safe (word ++ rest)%string = (to_safe word ++ to_safe rest)%string.
Proof.
  induction word as [|c w (IHl & IHc & IHa)]; simpl.
  - repeat split. constructor.
  - split; [by rewrite IHl|]. split; [|by rewrite IHa].
    constructor; [|exact IHc].
    destruct (safe_char c) eqn:E; auto.
Qed.

(** X19: [push] on a dictionary: under a key not yet present it stores
    the one-element list; under a key holding a list it appends to that
    list; every other key keeps its value.  A key holding something else
    raises [AttributeError], an unhashable key [TypeError], and the
    dictionary is unchanged. *)
Theorem push_appends_or_starts (key element : pyval) (my_dict : dict) :
  match to_key key with
  | Ok k =>
      match my_dict !! k with
      | None =>
          push key element my_dict
          = (Ok tt, <[k := PList [element]]> my_dict)
      | Some (PList l) =>
          push key element my_dict
          = (Ok tt, <[k := PList (l ++ [element])]> my_dict)
      | Some _ => push key element my_dict = (Raise AttributeError, my_dict)
      end
      /\ forall k', k' <> k -> (push key element my_dict).2 !! k' = my_dict !! k'
  | _ => push key element my_dict = (Raise TypeError, my_dict)
  end.
Proof.
  unfold push. rewrite bind_lift.
  destruct key as [| | | |l|d]; cbn [to_key]; try reflexivity;
    rewrite bind_gets;
    match goal with
    | |- context [my_dict !! ?k] =>
        destruct (my_dict !! k) as [[| | | |l|d]|] eqn:E
    end;
    (split; [reflexivity|]); intros k' Hk'; cbn [snd modify lift];
    rewrite ?lookup_insert_ne by congruence; reflexivity.
Qed.

Lemma push_appends_or_starts_witness :
  (push (PStr "web") (PInt 2)
     (<[KStr "web" := PList [PInt 1]]> (<[KStr "db" := PList []]> ∅))).2
    !! KStr "db"
  = Some (PList []).
Proof.
  exact (proj2 (push_appends_or_starts (PStr "web") (PInt 2)
    (<[KStr "web" := PList [PInt 1]]> (<[KStr "db" := PList []]> ∅)))
    (KStr "db") ltac:(discriminate)).
Defined.

End UtilitiesMore.

(* ===================================================================== *)
(** ** The inventory builder on well-formed records *)
(* ===================================================================== *)

Section BuilderSteps.

Lemma add_to_group_joins (g : string) (dest : pyval) (inv : dict) :
  group_like (inv !! KStr g) ->
  add_to_group g dest inv = (Ok tt, bump dest inv g).
Proof.
  intros [Hnone | (gd & h & Hsome & Hh)]; unfold add_to_group, bump.
  - rewrite bind_gets, Hnone.
    rewrite (bool_decide_eq_false_2 _ (is_Some_None (A:=pyval))).
    cbn [negb when]. rewrite bind_modify. unfold append_host.
    rewrite lookup_insert_eq. unfold new_group. cbn [getitem setitem].
    rewrite lookup_insert_eq, insert_insert_eq. cbn [joined host_group].
    rewrite insert_insert_eq. reflexivity.
  - rewrite bind_gets, Hsome.
    rewrite (bool_decide_eq_true_2 _ (mk_is_Some _ _ eq_refl)).
    cbn [negb when]. rewrite bind_ret. unfold append_host.
    rewrite Hsome. cbn [getitem setitem joined]. rewrite Hh. reflexivity.
Qed.

Lemma append_host_joins (g : string) (dest : pyval) (inv : dict)
    (gd : dict) (h : list pyval) :
  inv !! KStr g = Some (PDict gd) ->
  gd !! KStr "hosts" = Some (PList h) ->
  append_host g dest inv = (Ok tt, bump dest inv g).
Proof.
  intros Hg Hh. unfold append_host, bump.
  rewrite Hg. cbn [getitem setitem joined]. rewrite Hh. reflexivity.
Qed.

Lemma joined_group_like (o : option pyval) (dest : pyval) :
  group_like o ->
  exists gd h, Some (joined o dest) = Some (PDict gd)
               /\ gd !! KStr "hosts" = Some (PList h).
Proof.
  intros [-> | (gd & h & -> & Hh)]; cbn [joined].
  - eexists _, _. split; [reflexivity|]. apply lookup_insert_eq.
  - rewrite Hh. eexists _, _. split; [reflexivity|]. apply lookup_insert_eq.
Qed.

Lemma tidy_bump (dest : pyval) (inv : dict) (g : string) :
  tidy inv -> group_name g = true -> tidy (bump dest inv g).
Proof.
  intros [Hall Hgn] Hg. unfold bump. split.
  - destruct (decide (g = "all")) as [->|Hne].
    + rewrite lookup_insert_eq.
      destruct (joined_group_like (inv !! KStr "all") dest (Hgn _ Hg))
        as (gd & h & [= ->] & Hh). eauto.
    + rewrite lookup_insert_ne by congruence. exact Hall.
  - intros g' Hg'. destruct (decide (g' = g)) as [->|Hne].
    + rewrite lookup_insert_eq. right.
      destruct (joined_group_like (inv !! KStr g) dest (Hgn _ Hg))
        as (gd & h & [= ->] & Hh). eauto.
    + rewrite lookup_insert_ne by congruence. auto.
Qed.

Lemma tidy_shortcut (k : key) (x : pyval) (inv : dict) :
  tidy inv ->
  (forall g, k = KStr g -> group_name g = false) ->
  tidy (<[k := x]> inv).
Proof.
  intros [Hall Hgn] Hk. split.
  - rewrite lookup_insert_ne; [exact Hall|].
    intros ->. specialize (Hk "all" eq_refl). discriminate.
  - intros g Hg. rewrite lookup_insert_ne; [auto|].
    intros ->. specialize (Hk g eq_refl). congruence.
Qed.

Lemma store_stores (v : pyval) (k : key) (x : pyval) (inv : dict) :
  to_key v = Ok k -> store v x inv = (Ok tt, <[k := x]> inv).
Proof. intros H. unfold store. rewrite H. reflexivity. Qed.

Lemma prefix_app (p x : string) : String.prefix p (p ++ x)%string = true.
Proof.
  induction p as [|a p IH]; simpl; [by destruct x|].
  destruct (ascii_dec a a); [exact IH | congruence].
Qed.

Lemma group_names_of (s : server) :
  Forall (fun g => group_name g = true) (groups_of s).
Proof.
  assert (forall x, group_name ("image_" ++ x)%string = true) as Himg.
  { intros x. unfold group_name. rewrite (prefix_app "image_" x).
    by rewrite !orb_true_r. }
  assert (forall x, group_name ("plan_" ++ x)%string = true) as Hplan.
  { intros x. unfold group_name. rewrite (prefix_app "plan_" x).
    by rewrite !orb_true_r. }
  assert (forall x, group_name ("distro_" ++ x)%string = true) as Hdistro.
  { intros x. unfold group_name. rewrite (prefix_app "distro_" x).
    by rewrite !orb_true_r. }
  assert (forall x, group_name ("status_" ++ x)%string = true) as Hstatus.
  { intros x. unfold group_name. rewrite (prefix_app "status_" x).
    by rewrite !orb_true_r. }
  unfold groups_of.
  repeat apply Forall_app_2; [repeat constructor; auto | |];
    destruct (String.eqb _ _); repeat constructor; auto.
Qed.

Lemma tidy_foldl_bump (dest : pyval) (gs : list string) (inv : dict) :
  tidy inv -> Forall (fun g => group_name g = true) gs ->
  tidy (foldl (bump dest) inv gs).
Proof.
  revert inv. induction gs as [|g gs IH]; intros inv Ht Hgs; [exact Ht|].
  inversion_clear Hgs. simpl. apply IH; [apply tidy_bump|]; assumption.
Qed.

(** Appending one address to a list of group names. *)
Lemma for_each_joins (dest : pyval) (gs : list string) (inv : dict) :
  tidy inv -> Forall (fun g => group_name g = true) gs ->
  for_each gs (fun group => add_to_group group dest) inv
  = (Ok tt, foldl (bump dest) inv gs).
Proof.
  revert inv. induction gs as [|g gs IH]; intros inv Ht Hgs; [reflexivity|].
  inversion_clear Hgs as [|? ? Hg Hgs']. cbn [for_each foldl].
  rewrite bind_run, (add_to_group_joins g dest inv (proj2 Ht g Hg)).
  apply IH; [apply tidy_bump|]; assumption.
Qed.

(** One turn of the loop on a well-formed record whose name is not a
    group name. *)
Lemma add_cloudserver_turn (s : server) (c : pyval) (inv : dict) :
  describes s c -> group_name (sv_name s) = false -> tidy inv ->
  add_cloudserver c inv = (Ok tt, turn inv s) /\ tidy (turn inv s).
Proof.
  intros (d & -> & Hid & Hname & Hip & Himg & Hdn & Hplan & Hst) Hclean Ht.
  pose proof (group_names_of s) as Hgn.
  set (dest := PStr (sv_address s)).
  assert (tidy (<[KStr (sv_name s) := PList [dest]]>
                  (<[KInt (sv_id s) := PList [dest]]> (bump dest inv "all"))))
    as Ht1.
  { apply tidy_shortcut; [apply tidy_shortcut|].
    - apply tidy_bump; [exact Ht | reflexivity].
    - intros g [=].
    - intros g [= <-]. exact Hclean. }
  split.
  - unfold add_cloudserver. cbn [getitem].
    rewrite Hip, Hid, Hname, Himg, Hdn, Hplan, Hst.
    rewrite bind_lift. fold dest.
    destruct Ht as [(gd & h & Hall & Hh) Hgroups].
    rewrite bind_run, (append_host_joins "all" dest inv gd h Hall Hh).
    rewrite bind_lift, bind_run, (store_stores _ (KInt (sv_id s))) by reflexivity.
    rewrite bind_lift, bind_run, (store_stores _ (KStr (sv_name s)))
      by reflexivity.
    cbn [to_safe_val concat mbind result_bind mret result_ret].
    repeat (rewrite bind_lift; cbn [mret result_ret]).
    unfold turn. fold dest.
    change (tail (groups_of s)) with
      ((["image_" ++ to_safe (sv_image s); "plan_" ++ sv_plan s;
         "distro_" ++ to_safe (sv_display s); "status_" ++ sv_status s]%string)
       ++ ((if String.eqb (sv_image s) "" then []
            else ["image_" ++ to_safe (sv_image s)]%string)
           ++ (if String.eqb (sv_display s) "" then []
               else ["image_" ++ to_safe (sv_display s)]%string))).
    rewrite foldl_app.
    inversion_clear Hgn as [|? ? _ Hgn'].
    apply (Forall_app _
      ["image_" ++ to_safe (sv_image s); "plan_" ++ sv_plan s;
       "distro_" ++ to_safe (sv_display s); "status_" ++ sv_status s]%string)
      in Hgn' as [Hfour Hopt].
    rewrite bind_run, (for_each_joins dest _ _ Ht1 Hfour).
    pose proof (tidy_foldl_bump dest _ _ Ht1 Hfour) as Ht2.
    set (inv2 := foldl (bump dest) _ _) in *.
    rewrite !bind_lift. cbn [for_each truthy].
    apply Forall_app in Hopt as [Ho1 Ho2].
    destruct (String.eqb (sv_image s) "") eqn:E1; cbn [negb when].
    + rewrite bind_ret.
      destruct (String.eqb (sv_display s) "") eqn:E2; cbn [negb when].
      * reflexivity.
      * rewrite bind_run, bind_lift. cbn [to_safe_val].
        inversion_clear Ho2 as [|? ? Hg _].
        rewrite (add_to_group_joins _ dest inv2 (proj2 Ht2 _ Hg)).
        reflexivity.
    + rewrite bind_run, bind_lift. cbn [to_safe_val].
      inversion_clear Ho1 as [|? ? Hg1 _].
      rewrite (add_to_group_joins _ dest inv2 (proj2 Ht2 _ Hg1)).
      pose proof (tidy_bump dest inv2 _ Ht2 Hg1) as Ht3.
      destruct (String.eqb (sv_display s) "") eqn:E2; cbn [negb when].
      * reflexivity.
      * rewrite bind_run, bind_lift. cbn [to_safe_val].
        inversion_clear Ho2 as [|? ? Hg _].
        rewrite (add_to_group_joins _ dest _ (proj2 Ht3 _ Hg)).
        reflexivity.
  - unfold turn. fold dest. apply tidy_foldl_bump; [exact Ht1|].
    inversion_clear Hgn. assumption.
Qed.

(** The loop on a list of well-formed records. *)
Lemma for_each_turns (servers : list server) (l : list pyval) (inv : dict) :
  Forall2 describes servers l ->
  Forall (fun s => group_name (sv_name s) = false) servers ->
  tidy inv ->
  for_each l add_cloudserver inv = (Ok tt, foldl turn inv servers)
  /\ tidy (foldl turn inv servers).
Proof.
  intros Hd. revert inv.
  induction Hd as [|s c servers l Hs _ IH]; intros inv Hc Ht;
    [split; [reflexivity | exact Ht]|].
  inversion_clear Hc as [|? ? Hs' Hc'].
  destruct (add_cloudserver_turn s c inv Hs Hs' Ht) as [Hrun Ht'].
  cbn [for_each foldl]. rewrite bind_run, Hrun. apply IH; assumption.
Qed.

(** Appends seen from one key. *)
Lemma joined_slot (vars : option pyval) (hs : list pyval) (dest : pyval) :
  Some (joined (slot vars hs) dest) = slot vars (hs ++ [dest]).
Proof.
  destruct vars as [v|]; [|destruct hs as [|x hs]]; cbn [slot joined app].
  - unfold host_group at 1. rewrite lookup_insert_eq.
    unfold host_group. by rewrite insert_insert_eq.
  - reflexivity.
  - unfold host_group at 1. rewrite lookup_insert_eq.
    unfold host_group. rewrite insert_insert_eq. reflexivity.
Qed.

Lemma foldl_bump_slot (dest : pyval) (g : string) (vars : option pyval)
    (gs : list string) (inv : dict) (hs : list pyval) :
  inv !! KStr g = slot vars hs ->
  foldl (bump dest) inv gs !! KStr g
  = slot vars (hs ++ ((fun _ => dest) <$> filter (fun x => x = g) gs)).
Proof.
  revert inv hs. induction gs as [|x gs IH]; intros inv hs Hg.
  - by rewrite app_nil_r.
  - cbn [foldl]. rewrite filter_cons. destruct (decide (x = g)) as [->|Hne].
    + rewrite (IH _ (hs ++ [dest])).
      * by rewrite fmap_cons, <- app_assoc.
      * unfold bump. rewrite lookup_insert_eq, Hg. apply joined_slot.
    + apply IH. unfold bump. rewrite lookup_insert_ne by congruence. exact Hg.
Qed.

Lemma foldl_bump_other (dest : pyval) (k : key) (gs : list string)
    (inv : dict) :
  (forall g, g ∈ gs -> k <> KStr g) ->
  foldl (bump dest) inv gs !! k = inv !! k.
Proof.
  revert inv. induction gs as [|x gs IH]; intros inv Hk; [reflexivity|].
  cbn [foldl]. rewrite IH by (intros g Hg; apply Hk; by right).
  unfold bump. apply lookup_insert_ne. intros <-.
  exact (Hk x (list_elem_of_here _ _) eq_refl).
Qed.

(** One turn seen from a group name and from any other key. *)
Lemma turn_group (inv : dict) (s : server) (g : string)
    (vars : option pyval) (hs : list pyval) :
  group_name g = true -> group_name (sv_name s) = false ->
  inv !! KStr g = slot vars hs ->
  turn inv s !! KStr g = slot vars (hs ++ joins g s).
Proof.
  intros Hg Hs Hinv. unfold turn, joins.
  change (groups_of s) with ("all" :: tail (groups_of s)) at 2.
  rewrite filter_cons, (foldl_bump_slot _ g vars _ _
    (hs ++ ((fun _ => PStr (sv_address s))
              <$> (if decide ("all" = g) then ["all"] else [])))).
  - destruct (decide ("all" = g)); by rewrite ?fmap_cons, <- ?app_assoc.
  - rewrite lookup_insert_ne by (intros [= Heq]; congruence).
    rewrite lookup_insert_ne by discriminate.
    destruct (decide ("all" = g)) as [<-|Hne].
    + unfold bump. rewrite lookup_insert_eq, Hinv. apply joined_slot.
    + unfold bump. rewrite lookup_insert_ne by congruence.
      by rewrite app_nil_r.
Qed.

Lemma turn_shortcut (inv : dict) (s : server) (k : key) :
  (forall g, k = KStr g -> group_name g = false) ->
  turn inv s !! k
  = if decide (writes k s) then Some (PList [PStr (sv_address s)])
    else inv !! k.
Proof.
  intros Hk. unfold turn. rewrite foldl_bump_other.
  - unfold writes.
    destruct (decide (k = KStr (sv_name s))) as [->|Hn].
    + rewrite lookup_insert_eq. by rewrite decide_True by auto.
    + rewrite lookup_insert_ne by congruence.
      destruct (decide (k = KInt (sv_id s))) as [->|Hi].
      * rewrite lookup_insert_eq. by rewrite decide_True by auto.
      * rewrite lookup_insert_ne by congruence.
        rewrite decide_False by tauto.
        unfold bump. apply lookup_insert_ne. intros <-.
        specialize (Hk "all" eq_refl). discriminate.
  - intros g Hg ->. specialize (Hk g eq_refl).
    pose proof (group_names_of s) as Hall.
    rewrite Forall_forall in Hall.
    rewrite (Hall g) in Hk; [discriminate|].
    change (groups_of s) with ("all" :: tail (groups_of s)). by right.
Qed.

(** The loop seen from a group name and from any other key. *)
Lemma turns_group (servers : list server) (inv : dict) (g : string)
    (vars : option pyval) (hs : list pyval) :
  group_name g = true ->
  Forall (fun s => group_name (sv_name s) = false) servers ->
  inv !! KStr g = slot vars hs ->
  foldl turn inv servers !! KStr g = slot vars (hs ++ members g servers).
Proof.
  intros Hg. revert inv hs.
  induction servers as [|s servers IH]; intros inv hs Hc Hinv.
  - by rewrite app_nil_r.
  - inversion_clear Hc as [|? ? Hs Hc']. cbn [foldl].
    rewrite (IH _ (hs ++ joins g s) Hc' (turn_group _ _ _ _ _ Hg Hs Hinv)).
    unfold members. cbn [mbind list_bind]. by rewrite <- app_assoc.
Qed.

Lemma turns_shortcut (servers : list server) (inv : dict) (k : key) :
  (forall g, k = KStr g -> group_name g = false) ->
  foldl turn inv servers !! k
  = match last (filter (writes k) servers) with
    | Some s => Some (PList [PStr (sv_address s)])
    | None => inv !! k
    end.
Proof.
  intros Hk. revert inv.
  induction servers as [|s servers IH] using rev_ind; intros inv;
    [reflexivity|].
  rewrite foldl_app. cbn [foldl]. rewrite (turn_shortcut _ _ _ Hk).
  rewrite filter_app, filter_cons, filter_nil.
  destruct (decide (writes k s)).
  - by rewrite last_snoc.
  - rewrite app_nil_r. apply IH.
Qed.

(** [build_inventory] on well-formed records. *)
Lemma build_inventory_turns (e : env) (st : state) (l : list pyval)
    (servers : list server) :
  lists st l ->
  Forall2 describes servers l ->
  Forall (fun s => group_name (sv_name s) = false) servers ->
  build_inventory e st
  = (Ok tt,
     set_inventory (PDict (foldl turn (initial_inventory e) servers)) st).
Proof.
  intros (d & Hd & Hl) Hdesc Hclean. unfold build_inventory, fill_inventory.
  rewrite Hd. cbn [getitem]. rewrite Hl, bind_lift. cbn [iter].
  rewrite bind_lift.
  assert (tidy (initial_inventory e)) as Ht.
  { unfold initial_inventory. split.
    - eexists _, _. rewrite lookup_insert_eq. split; [reflexivity|].
      apply lookup_insert_eq.
    - intros g Hg. destruct (decide (g = "all")) as [->|Hne].
      + right. eexists _, _. rewrite lookup_insert_eq.
        split; [reflexivity|]. apply lookup_insert_eq.
      + left. rewrite lookup_insert_ne by congruence.
        rewrite lookup_insert_ne; [apply lookup_empty|].
        intros [= <-]. discriminate. }
  destruct (for_each_turns servers l _ Hdesc Hclean Ht) as [-> _].
  reflexivity.
Qed.

End BuilderSteps.

Section Builder.

Import Sample.

Lemma describes_web1 : describes web1_fields web1.
Proof. eexists. repeat split; reflexivity. Qed.

Lemma describes_web2 : describes web2_fields web2.
Proof. eexists. repeat split; reflexivity. Qed.

Lemma lists_two_servers : lists two_servers [web1; web2].
Proof. eexists. split; reflexivity. Qed.

Lemma two_servers_described :
  Forall2 describes [web1_fields; web2_fields] [web1; web2].
Proof.
  repeat constructor; [apply describes_web1 | apply describes_web2].
Qed.

Lemma two_servers_clean :
  Forall (fun s => group_name (sv_name s) = false) [web1_fields; web2_fields].
Proof. repeat constructor. Qed.

Lemma joins_all (s : server) : joins "all" s = [PStr (sv_address s)].
Proof.
  unfold joins, groups_of. cbn [app].
  rewrite filter_cons_True by reflexivity.
  rewrite !filter_cons_False by (simpl; discriminate).
  rewrite filter_app.
  destruct (String.eqb (sv_image s) ""), (String.eqb (sv_display s) "");
    rewrite ?filter_cons_False by (simpl; discriminate); reflexivity.
Qed.

Lemma members_all (servers : list server) :
  members "all" servers = (fun s => PStr (sv_address s)) <$> servers.
Proof.
  unfold members. induction servers as [|s servers IH]; [reflexivity|].
  cbn [mbind list_bind fmap list_fmap]. rewrite joins_all. simpl.
  f_equal. exact IH.
Qed.

(** X20: on records that hold the seven fields as strings (the id as an
    integer), none of them named like a group ([all] or a name under
    [image_], [plan_], [distro_], [status_]), [build_inventory] returns,
    and the [all] group of the inventory holds the configured group
    variables and the address of every cloudserver, once each, in the
    order of the list. *)
Theorem all_group_lists_every_address (e : env) (st : state)
    (l : list pyval) (servers : list server) :
  lists st l ->
  Forall2 describes servers l ->
  Forall (fun s => group_name (sv_name s) = false) servers ->
  exists inv,
    build_inventory e st = (Ok tt, set_inventory (PDict inv) st)
    /\ inv !! KStr "all"
       = Some (host_group ((fun s => PStr (sv_address s)) <$> servers)
                          (group_variables (conf e))).
Proof.
  intros Hl Hd Hc. eexists. split.
  - apply (build_inventory_turns e st l servers Hl Hd Hc).
  - rewrite (turns_group servers _ "all" (Some (group_variables (conf e))) []
               eq_refl Hc).
    + cbn [slot app]. by rewrite members_all.
    + unfold initial_inventory. by rewrite lookup_insert_eq.
Qed.

Lemma all_group_lists_every_address_witness :
  exists inv,
    build_inventory listing two_servers
    = (Ok tt, set_inventory (PDict inv) two_servers)
    /\ inv !! KStr "all"
       = Some (host_group [PStr "10.0.0.1"; PStr "10.0.0.2"] (PDict ∅)).
Proof.
  exact (all_group_lists_every_address listing two_servers [web1; web2]
           [web1_fields; web2_fields] lists_two_servers
           two_servers_described two_servers_clean).
Defined.

(** X21: under the same conditions, every other group name [g] of the
    inventory holds, in the order of the list, each cloudserver's address
    once per occurrence of [g] among the server's groups (its image,
    plan, distro and status groups, and again the image groups of a
    non-empty image id and display name), with empty [vars]; a name no
    server has among its groups is absent: no group is created empty. *)
Theorem derived_group_members (e : env) (st : state) (l : list pyval)
    (servers : list server) (g : string) :
  lists st l ->
  Forall2 describes servers l ->
  Forall (fun s => group_name (sv_name s) = false) servers ->
  group_name g = true -> g <> "all" ->
  exists inv,
    build_inventory e st = (Ok tt, set_inventory (PDict inv) st)
    /\ inv !! KStr g
       = match members g servers with
         | [] => None
         | hosts => Some (host_group hosts (PDict ∅))
         end.
Proof.
  intros Hl Hd Hc Hg Hne. eexists. split.
  - apply (build_inventory_turns e st l servers Hl Hd Hc).
  - rewrite (turns_group servers _ g None [] Hg Hc);
      [cbn [app slot]; by destruct (members g servers)|].
    unfold initial_inventory. rewrite lookup_insert_ne by congruence.
    rewrite lookup_insert_ne; [apply lookup_empty|].
    intros [= <-]. discriminate.
Qed.

Lemma derived_group_members_witness :
  exists inv,
    build_inventory listing two_servers
    = (Ok tt, set_inventory (PDict inv) two_servers)
    /\ inv !! KStr "image_img-1"
       = Some (host_group [PStr "10.0.0.1"; PStr "10.0.0.1"] (PDict ∅)).
Proof.
  exact (derived_group_members listing two_servers [web1; web2]
           [web1_fields; web2_fields] "image_img-1" lists_two_servers
           two_servers_described two_servers_clean eq_refl
           ltac:(discriminate)).
Defined.

Lemma joins_plan (p : string) (s : server) :
  joins ("plan_" ++ p)%string s
  = if decide (sv_plan s = p) then [PStr (sv_address s)] else [].
Proof.
  unfold joins, groups_of. cbn [app].
  rewrite !filter_cons_False by (simpl; discriminate).
  rewrite filter_cons.
  assert (filter (fun x => x = ("plan_" ++ p)%string)
            ((("distro_" ++ to_safe (sv_display s))%string
              :: [("status_" ++ sv_status s)%string])
             ++ (if String.eqb (sv_image s) "" then []
                 else [("image_" ++ to_safe (sv_image s))%string])
             ++ (if String.eqb (sv_display s) "" then []
                 else [("image_" ++ to_safe (sv_display s))%string])) = [])
    as Hrest.
  { rewrite !filter_app. cbn [app].
    rewrite !filter_cons_False by (simpl; discriminate).
    destruct (String.eqb (sv_image s) ""), (String.eqb (sv_display s) "");
      rewrite ?filter_cons_False by (simpl; discriminate); reflexivity. }
  cbn [app] in Hrest. rewrite Hrest.
  destruct (decide (sv_plan s = p)) as [->|Hne].
  - by rewrite decide_True.
  - rewrite decide_False; [reflexivity|]. simpl. intros [= H]. auto.
Qed.

Lemma members_plan (p : string) (servers : list server) :
  members ("plan_" ++ p)%string servers
  = (fun s => PStr (sv_address s))
      <$> filter (fun s => sv_plan s = p) servers.
Proof.
  induction servers as [|s servers IH]; [reflexivity|].
  change (members ("plan_" ++ p)%string (s :: servers))
    with (joins ("plan_" ++ p)%string s
          ++ members ("plan_" ++ p)%string servers).
  rewrite joins_plan, filter_cons, IH.
  destruct (decide (sv_plan s = p)); reflexivity.
Qed.

(** X22: under the same conditions, the group [plan_<p>] holds exactly
    the addresses of the cloudservers whose plan is [p], in the order of
    the list (so two servers on one plan share one group); no server on
    the plan, no group. *)
Theorem plan_group_members (e : env) (st : state) (l : list pyval)
    (servers : list server) (p : string) :
  lists st l ->
  Forall2 describes servers l ->
  Forall (fun s => group_name (sv_name s) = false) servers ->
  exists inv,
    build_inventory e st = (Ok tt, set_inventory (PDict inv) st)
    /\ inv !! KStr ("plan_" ++ p)%string
       = match filter (fun s => sv_plan s = p) servers with
         | [] => None
         | on_plan =>
             Some (host_group ((fun s => PStr (sv_address s)) <$> on_plan)
                              (PDict ∅))
         end.
Proof.
  intros Hl Hd Hc. eexists. split.
  - apply (build_inventory_turns e st l servers Hl Hd Hc).
  - assert (group_name ("plan_" ++ p)%string = true) as Hg.
    { unfold group_name. rewrite (prefix_app "plan_" p).
      by rewrite !orb_true_r. }
    rewrite (turns_group servers _ _ None [] Hg Hc).
    + cbn [app]. rewrite members_plan.
      by destruct (filter (fun s => sv_plan s = p) servers).
    + unfold initial_inventory.
      rewrite !lookup_insert_ne by (simpl; discriminate).
      apply lookup_empty.
Qed.

Lemma plan_group_members_witness :
  exists inv,
    build_inventory listing two_servers
    = (Ok tt, set_inventory (PDict inv) two_servers)
    /\ inv !! KStr "plan_small"
       = Some (host_group [PStr "10.0.0.1"; PStr "10.0.0.2"] (PDict ∅)).
Proof.
  exact (plan_group_members listing two_servers [web1; web2]
           [web1_fields; web2_fields] "small" lists_two_servers
           two_servers_described two_servers_clean).
Defined.

(** X23: under the same conditions, a key that is not a group name holds
    the one-element list of the address of the last cloudserver whose id
    or name it is (the last writer wins); a key no server writes is as
    in the initial inventory ([_meta] keeps its empty [hostvars]). *)
Theorem shortcut_last_writer_wins (e : env) (st : state) (l : list pyval)
    (servers : list server) (k : key) :
  lists st l ->
  Forall2 describes servers l ->
  Forall (fun s => group_name (sv_name s) = false) servers ->
  (forall g, k = KStr g -> group_name g = false) ->
  exists inv,
    build_inventory e st = (Ok tt, set_inventory (PDict inv) st)
    /\ inv !! k
       = match last (filter (writes k) servers) with
         | Some s => Some (PList [PStr (sv_address s)])
         | None => initial_inventory e !! k
         end.
Proof.
  intros Hl Hd Hc Hk. eexists. split.
  - apply (build_inventory_turns e st l servers Hl Hd Hc).
  - apply turns_shortcut. exact Hk.
Qed.

Lemma shortcut_last_writer_wins_witness :
  exists inv,
    build_inventory listing two_servers
    = (Ok tt, set_inventory (PDict inv) two_servers)
    /\ inv !! KInt 2 = Some (PList [PStr "10.0.0.2"]).
Proof.
  exact (shortcut_last_writer_wins listing two_servers [web1; web2]
           [web1_fields; web2_fields] (KInt 2) lists_two_servers
           two_servers_described two_servers_clean
           ltac:(discriminate)).
Defined.

(** X24: the edges of the builder's input.  With an empty cloudserver
    list the inventory is the two reserved groups and nothing else; with
    a ResourceSet that has no [cloudservers] entry the builder raises
    [KeyError], the inventory already replaced by the two reserved
    groups. *)
Theorem build_inventory_without_servers (e : env) (st : state) (d : dict) :
  data st = PDict d ->
  (d !! KStr "cloudservers" = Some (PList []) ->
   build_inventory e st
   = (Ok tt, set_inventory (PDict (initial_inventory e)) st))
  /\ (d !! KStr "cloudservers" = None ->
      build_inventory e st
      = (Raise KeyError, set_inventory (PDict (initial_inventory e)) st))
  /\ initial_inventory e !! KStr "all"
     = Some (host_group [] (group_variables (conf e)))
  /\ initial_inventory e !! KStr "_meta"
     = Some (PDict (<[KStr "hostvars" := PDict ∅]> ∅))
  /\ size (initial_inventory e) = 2.
Proof.
  intros Hd. unfold build_inventory, fill_inventory. rewrite Hd.
  cbn [getitem]. split; [|split; [|split; [|split]]].
  - intros ->. reflexivity.
  - intros ->. reflexivity.
  - unfold initial_inventory. apply lookup_insert_eq.
  - unfold initial_inventory. rewrite lookup_insert_ne by discriminate.
    apply lookup_insert_eq.
  - unfold initial_inventory.
    rewrite map_size_insert_None, map_size_insert_None; [reflexivity| |].
    + apply lookup_empty.
    + rewrite lookup_insert_ne by discriminate. apply lookup_empty.
Qed.

Lemma build_inventory_without_servers_witness :
  build_inventory listing loaded
  = (Raise KeyError, set_inventory (PDict (initial_inventory listing)) loaded).
Proof.
  exact (proj1 (proj2 (build_inventory_without_servers listing loaded
    (<[KStr "images" := PList [PStr "old image"]]> ∅) eq_refl)) eq_refl).
Defined.

(** An append under a key that holds a shortcut list. *)
Lemma add_to_group_on_shortcut (g : string) (dest : pyval) (inv : dict)
    (x : list pyval) :
  inv !! KStr g = Some (PList x) ->
  add_to_group g dest inv = (Raise TypeError, inv).
Proof.
  intros H. unfold add_to_group. rewrite bind_gets, H.
  rewrite (bool_decide_eq_true_2 _ (mk_is_Some _ _ eq_refl)).
  cbn [negb when]. rewrite bind_ret. unfold append_host. rewrite H.
  reflexivity.
Qed.

(** X25: a cloudserver whose name is the name of its own plan group
    ([plan_<its plan>]) makes the builder fail: the name shortcut takes
    the key as a bare list, and the append to the plan group raises
    [TypeError]. *)
Theorem name_of_own_plan_group_fails (e : env) (st : state) (c : pyval)
    (l : list pyval) (s : server) :
  lists st (c :: l) ->
  describes s c ->
  sv_name s = ("plan_" ++ sv_plan s)%string ->
  (build_inventory e st).1 = Raise TypeError.
Proof.
  intros (d0 & Hd0 & Hl)
         (d & -> & Hid & Hname & Hip & Himg & Hdn & Hplan & Hst) Hclash.
  unfold build_inventory, fill_inventory. rewrite Hd0. cbn [getitem].
  rewrite Hl, bind_lift. cbn [iter]. rewrite bind_lift. cbn [for_each].
  rewrite bind_run.
  set (dest := PStr (sv_address s)).
  set (inv1 := <[KStr (sv_name s) := PList [dest]]>
                 (<[KInt (sv_id s) := PList [dest]]>
                    (bump dest (initial_inventory e) "all"))).
  set (g1 := ("image_" ++ to_safe (sv_image s))%string).
  assert (add_cloudserver (PDict d) (initial_inventory e)
          = (Raise TypeError, bump dest inv1 g1)) as ->; [|reflexivity].
  unfold add_cloudserver. cbn [getitem].
  rewrite Hip, Hid, Hname, Himg, Hdn, Hplan, Hst.
  rewrite bind_lift. fold dest.
  rewrite bind_run,
    (append_host_joins "all" dest (initial_inventory e)
       (<[KStr "hosts" := PList []]>
          (<[KStr "vars" := group_variables (conf e)]> ∅)) [])
    by (unfold initial_inventory; apply lookup_insert_eq).
  rewrite bind_lift, bind_run, (store_stores _ (KInt (sv_id s)))
    by reflexivity.
  rewrite bind_lift, bind_run, (store_stores _ (KStr (sv_name s)))
    by reflexivity.
  fold inv1.
  cbn [to_safe_val concat mbind result_bind mret result_ret].
  repeat (rewrite bind_lift; cbn [mret result_ret]).
  fold g1. cbn [for_each].
  assert (inv1 !! KStr g1 = None) as Hg1.
  { subst inv1 g1. rewrite Hclash.
    rewrite lookup_insert_ne by (simpl; discriminate).
    rewrite lookup_insert_ne by discriminate.
    unfold bump, initial_inventory.
    rewrite !lookup_insert_ne by (simpl; discriminate).
    apply lookup_empty. }
  rewrite bind_run, bind_run,
    (add_to_group_joins g1 dest inv1 (or_introl Hg1)).
  rewrite bind_run, (add_to_group_on_shortcut _ dest _ [dest]);
    [reflexivity|].
  unfold bump at 1. rewrite <- Hclash.
  rewrite lookup_insert_ne by (subst g1; rewrite Hclash; simpl; discriminate).
  subst inv1. apply lookup_insert_eq.
Qed.

Lemma name_of_own_plan_group_fails_witness :
  (build_inventory listing
     (set_data
        (PDict (<[KStr "cloudservers" :=
                    PList [PDict (<[KStr "name" := PStr "plan_small"]>
                                    (<[KStr "id" := PInt 1]>
                                    (<[KStr "vm_ip_address" := address]>
                                    (<[KStr "vm_image" := PStr "img-1"]>
                                    (<[KStr "vm_image_display_name" := PStr "Ubuntu 20.04"]>
                                    (<[KStr "vm_plan_name" := PStr "small"]>
                                    (<[KStr "vm_status" := PStr "active"]> ∅)))))))]]> ∅))
        one_server)).1
  = Raise TypeError.
Proof.
  eapply (name_of_own_plan_group_fails listing _ _ []
            (Server 1 "plan_small" "10.0.0.1" "img-1" "Ubuntu 20.04"
                    "small" "active")).
  - eexists. split; reflexivity.
  - eexists. repeat split; reflexivity.
  - reflexivity.
Defined.

End Builder.
